(** * ideacron: the subreddit idea filter

    A shallow embedding of [subreddit_idea_filter.py] (fetch, classify,
    render, deliver) and the properties of its four stages.

    Python values are modelled as follows.
    - [str] is a sequence of Unicode code points ([list N]); [py "..."]
      injects an ASCII literal.
    - [float] is IEEE binary64, Rocq's primitive [float].
    - An operation that can raise returns a [result]; [exn] lists the
      subclasses of [Exception] the program can meet.
    - The process environment is a finite map from names to values.
    - The outside world (chat-completion service, clock, SMTP server,
      Reddit API, HTTP endpoint) enters as explicit oracles.
    The model has two layers.  The first gives what each stage computes
    when every [print] goes through and the library objects a stage builds
    ([OpenAI(...)], [MIMEText(...)]) are built: there [print],
    [time.sleep] and [random.random] are left out.  The second layer,
    module [IO], adds what the first leaves out where it can change the
    course of a run: the console, on which a [print] of text that is not a
    constant of the program can raise, and the construction of those
    objects, which can raise too.  Lemmas [io_filter_agrees],
    [io_send_email_agrees] and [io_main_agrees] relate the two: under the
    conditions named, a run of the second layer is the run of the first. *)

From Stdlib Require Import ZArith NArith List String Ascii Lia.
From Stdlib Require Import DecimalString Floats.
From stdpp Require Import base list gmap strings.

(** ** Python strings *)

Definition str := list N.

Definition py (s : string) : str := map N_of_ascii (list_ascii_of_string s).
Arguments py s%_string.

(** The code points of line feed, double quote and less-than. *)
Abbreviation LF := (10%N) (only parsing).
Abbreviation QUOTE := (34%N) (only parsing).
Abbreviation LT := (60%N) (only parsing).

Definition nl : str := [LF].
Definition dq : str := [QUOTE].

(** ["\n".join(ls)] *)
Fixpoint join_nl (ls : list str) : str :=
  match ls with
  | [] => []
  | [l] => l
  | l :: ls' => l ++ nl ++ join_nl ls'
  end.

(** [str.isspace] on one code point (the Unicode white-space set CPython's
    [strip] uses). *)
Definition isspace (c : N) : bool :=
  ((9 <=? c) && (c <=? 13) || (28 <=? c) && (c <=? 32)
   || (c =? 133) || (c =? 160) || (c =? 5760)
   || (8192 <=? c) && (c <=? 8202)
   || (c =? 8232) || (c =? 8233) || (c =? 8239) || (c =? 8287)
   || (c =? 12288))%N.

Fixpoint lstrip_by (space : N → bool) (s : str) : str :=
  match s with
  | c :: s' => if space c then lstrip_by space s' else s
  | [] => []
  end.

Definition strip_by (space : N → bool) (s : str) : str :=
  rev (lstrip_by space (rev (lstrip_by space s))).

(** [s.strip()] *)
Definition strip (s : str) : str := strip_by isspace s.

(** [s.split('\n', 1)]: one segment when [s] has no line feed, otherwise the
    text before the first line feed and everything after it. *)
Fixpoint split_nl_1 (s : str) : list str :=
  match s with
  | [] => [[]]
  | c :: s' =>
      if (c =? 10)%N then [[]; s']
      else match split_nl_1 s' with
           | first :: rest => (c :: first) :: rest
           | [] => [[c]]
           end
  end.

(** [str.upper] on one code point.  ASCII letters, and every code point
    whose upper-case form contains [Y], [E] or [S] (U+00DF, U+017F, U+1E99,
    U+FB05, U+FB06), are mapped as Unicode prescribes; the remaining
    non-ASCII code points are left in place, which the comparison of the
    result with ["YES"] cannot observe. *)
Definition upper_char (c : N) : str :=
  (if (97 <=? c) && (c <=? 122) then [c - 32]
   else if c =? 223 then [83; 83]
   else if c =? 383 then [83]
   else if c =? 7833 then [89; 778]
   else if (c =? 64261) || (c =? 64262) then [83; 84]
   else [c])%N.

Definition upper (s : str) : str := flat_map upper_char s.

(** [needle in hay] *)
Definition infix_of (needle hay : str) : Prop :=
  ∃ before after, hay = before ++ needle ++ after.

(** [str(n)] for an [int]. *)
Definition str_of_Z (z : Z) : str := py (NilZero.string_of_int (Z.to_int z)).

(** ** Exceptions and results *)

Inductive exn : Type :=
  | RequestException   (* requests.exceptions.RequestException and subclasses *)
  | KeyError
  | TypeError
  | ValueError         (* and subclasses, UnicodeEncodeError among them *)
  | OverflowError
  | IndexError
  | AttributeError
  | OtherError.        (* any other subclass of Exception *)

Inductive result (A : Type) : Type :=
  | Returns (a : A)
  | Raises (e : exn).
Arguments Returns {A} a.
Arguments Raises {A} e.

Definition bind {A B} (r : result A) (k : A → result B) : result B :=
  match r with
  | Returns a => k a
  | Raises e => Raises e
  end.

Notation "x ←! r ; k" := (bind r (λ x, k))
  (at level 20, r at level 100, k at level 200, right associativity,
   format "x  ←!  r ;  '/' k").

(** ** Environment *)

(** [os.getenv(name)] *)
Definition getenv (env : gmap string str) (name : string) : option str :=
  env !! name.

(** [os.getenv(name, default)] *)
Definition getenv_default (env : gmap string str) (name : string)
    (default : option str) : option str :=
  match env !! name with
  | Some v => Some v
  | None => default
  end.

(** Truth value of an [Optional[str]]: [None] and [""] are false. *)
Definition truthy (o : option str) : bool :=
  match o with
  | Some (_ :: _) => true
  | _ => false
  end.

(** ** Posts *)

Record Post : Type := {
  title : str;
  author : str;
  score : Z;
  url : str;
  created_utc : float;
  num_comments : Z;
  selftext : option str;
  subreddit : str;
  permalink : str
}.

(** [Post.get_full_url] *)
Definition get_full_url (self : Post) : str :=
  py "https://www.reddit.com" ++ permalink self.

(** [int(x)] for a float: truncation toward zero; [ValueError] on NaN,
    [OverflowError] on an infinity. *)
Definition int_of_float (x : float) : result Z :=
  match Prim2SF x with
  | S754_zero _ => Returns 0%Z
  | S754_finite sign m e =>
      let magnitude := Z.shiftl (Z.pos m) e in
      Returns (if sign then (- magnitude)%Z else magnitude)
  | S754_infinity _ => Raises OverflowError
  | S754_nan => Raises ValueError
  end.

(** [Post.get_age_str], with the reading of [time.time()] as [now]. *)
Definition get_age_str (now : float) (self : Post) : result str :=
  let age_seconds := (now - created_utc self)%float in
  if (age_seconds <? 60)%float then
    n ←! int_of_float age_seconds; Returns (str_of_Z n ++ py "s")
  else if (age_seconds <? 3600)%float then
    n ←! int_of_float (age_seconds / 60)%float; Returns (str_of_Z n ++ py "m")
  else if (age_seconds <? 86400)%float then
    n ←! int_of_float (age_seconds / 3600)%float; Returns (str_of_Z n ++ py "h")
  else
    n ←! int_of_float (age_seconds / 86400)%float; Returns (str_of_Z n ++ py "d").

(** ** Classifier: [filter_posts_with_gemini] *)

(** The [post_content] f-string. *)
Definition post_content (post : Post) : str :=
  join_nl [
    [];
    py "        Title: " ++ title post;
    py "        Subreddit: r/" ++ subreddit post;
    py "        Content: "
      ++ (if truthy (selftext post) then default [] (selftext post)
          else py "[No content]");
    py "        "
  ].

(** The [prompt] f-string. *)
Definition build_prompt (filter_criteria : str) (post : Post) : str :=
  join_nl [
    [];
    py "        " ++ filter_criteria;
    py "        ";
    py "        Post details:";
    py "        " ++ post_content post;
    py "        ";
    py "        First, answer with just YES or NO. ";
    py "        Then, if YES, provide a one-sentence explanation of why this post matches the criteria.";
    py "        Format your answer exactly like this example:";
    py "        YES";
    py "        This post describes a specific pain point that could be addressed with a SaaS solution.";
    py "        ";
    py "        Or if it doesn't match:";
    py "        NO";
    py "        "
  ].

(** What [client.chat.completions.create] hands back: the [message.content]
    of each entry of [choices] ([None] when the service sent no text). *)
Definition completion := list (option str).

(** [completion.choices[0].message.content.strip()] *)
Definition response_text (c : completion) : result str :=
  match c !! 0%nat with
  | None => Raises IndexError
  | Some None => Raises AttributeError
  | Some (Some content) => Returns (strip content)
  end.

(** Lines 245-253: the decision and reason read off the stripped response.
    [Some reason] when the post is accepted, [None] when it is rejected. *)
Definition parse_response (response : str) : result (option str) :=
  let lines := split_nl_1 response in
  match lines !! 0%nat with
  | None => Raises IndexError
  | Some first =>
      let decision := upper (strip first) in
      if bool_decide (decision = py "YES") && (1 <? length lines)%nat then
        match lines !! 1%nat with
        | None => Raises IndexError
        | Some second => Returns (Some (strip second))
        end
      else Returns None
  end.

(** The body of the [try] block for one post, from the call's outcome. *)
Definition try_classify (outcome : result completion) : result (option str) :=
  c ←! outcome;
  response ←! response_text c;
  parse_response response.

(** The verdict on one post: the [try] block under [except Exception],
    for a handler whose own [print] (line 256) goes through.  The handler
    with its print is [IO.classify_post]. *)
Definition verdict (outcome : result completion) : option str :=
  match try_classify outcome with
  | Returns v => v
  | Raises _ => None
  end.

Section Classifier.
(** The chat-completion service: the outcome of a call, which may depend
    on the prompts sent before it and on the prompt itself. *)
Variable create : list str → str → result completion.
Variable filter_criteria : str.

(** One iteration of the loop over [posts].  The state is the list
    [filtered_posts] and the prompts sent so far. *)
Definition classify_post (st : list (Post * str) * list str) (post : Post)
    : list (Post * str) * list str :=
  let '(filtered_posts, sent) := st in
  let prompt := build_prompt filter_criteria post in
  match verdict (create sent prompt) with
  | Some reason => (filtered_posts ++ [(post, reason)], sent ++ [prompt])
  | None => (filtered_posts, sent ++ [prompt])
  end.

Definition classify_loop (posts : list Post)
    (st : list (Post * str) * list str) : list (Post * str) * list str :=
  fold_left classify_post posts st.

(** [filter_posts_with_gemini], once the client of lines 200-203 is built
    and with prints that go through: the accepted pairs, and the prompts
    that were sent to the service.  [IO.filter_posts_with_gemini] has the
    constructor and the prints. *)
Definition filter_posts_with_gemini_run (env : gmap string str)
    (posts : list Post) : list (Post * str) * list str :=
  if truthy (getenv env "OPENROUTER_KEY") then classify_loop posts ([], [])
  else ([], []).

Definition filter_posts_with_gemini (env : gmap string str)
    (posts : list Post) : list (Post * str) :=
  fst (filter_posts_with_gemini_run env posts).
End Classifier.


(** ** Report renderer: [build_html_report] *)

(** The value of [datetime.now()]. *)
Record datetime : Type := {
  year : N; month : N; day : N; hour : N; minute : N; second : N
}.

(** [s.zfill(width)] for a string of digits. *)
Definition zfill (width : nat) (s : str) : str :=
  replicate (width - length s) 48%N ++ s.

Definition str_of_N (n : N) : str := str_of_Z (Z.of_N n).

(** [d.strftime("%Y-%m-%d %H:%M:%S")], for the years 1000 to 9999. *)
Definition strftime (d : datetime) : str :=
  zfill 4 (str_of_N (year d)) ++ py "-" ++ zfill 2 (str_of_N (month d))
  ++ py "-" ++ zfill 2 (str_of_N (day d)) ++ py " "
  ++ zfill 2 (str_of_N (hour d)) ++ py ":" ++ zfill 2 (str_of_N (minute d))
  ++ py ":" ++ zfill 2 (str_of_N (second d)).

(** The opening f-string of the document, up to the summary: three
    literal parts around the timestamp and the number of results. *)
Definition head_1 : str :=
  join_nl [
    [];
    py "    <!DOCTYPE html>";
    py "    <html>";
    py "    <head>";
    py "        <meta charset=" ++ dq ++ py "UTF-8" ++ dq ++ py ">";
    py "        <meta name=" ++ dq ++ py "viewport" ++ dq ++ py " content="
      ++ dq ++ py "width=device-width, initial-scale=1.0" ++ dq ++ py ">";
    py "        <title>Reddit Idea Filter Report</title>";
    py "        <style>";
    py "            body {";
    py "                font-family: Arial, sans-serif;";
    py "                line-height: 1.6;";
    py "                max-width: 800px;";
    py "                margin: 0 auto;";
    py "                padding: 20px;";
    py "                color: #333;";
    py "            }";
    py "            h1 {";
    py "                color: #ff4500;";
    py "                border-bottom: 2px solid #ff4500;";
    py "                padding-bottom: 10px;";
    py "            }";
    py "            .post {";
    py "                margin-bottom: 30px;";
    py "                padding: 15px;";
    py "                border-radius: 5px;";
    py "                background-color: #f9f9f9;";
    py "                border-left: 4px solid #ff4500;";
    py "            }";
    py "            .subreddit {";
    py "                color: #0079d3;";
    py "                font-weight: bold;";
    py "                margin-bottom: 5px;";
    py "            }";
    py "            .title {";
    py "                font-size: 1.2em;";
    py "                margin: 5px 0;";
    py "            }";
    py "            .title a {";
    py "                color: #1a1a1b;";
    py "                text-decoration: none;";
    py "            }";
    py "            .title a:hover {";
    py "                text-decoration: underline;";
    py "            }";
    py "            .age {";
    py "                color: #787c7e;";
    py "                font-size: 0.9em;";
    py "            }";
    py "            .reason {";
    py "                margin-top: 10px;";
    py "                font-style: italic;";
    py "                color: #4a4a4a;";
    py "            }";
    py "            .summary {";
    py "                margin-top: 20px;";
    py "                color: #666;";
    py "            }";
    py "        </style>";
    py "    </head>";
    py "    <body>";
    py "        <h1>Reddit Idea Filter Report</h1>";
    py "        <p>Generated on: "
  ].

Definition head_2 : str :=
  join_nl [
    py "</p>";
    py "        ";
    py "        <div class=" ++ dq ++ py "summary" ++ dq ++ py ">";
    py "            <p>Found "
  ].

Definition head_3 : str :=
  join_nl [
    py " posts matching your filter criteria.</p>";
    py "        </div>";
    py "    "
  ].

Definition report_head (timestamp : str) (count : nat) : str :=
  head_1 ++ timestamp ++ head_2 ++ str_of_Z (Z.of_nat count) ++ head_3.

(** The f-string appended for one accepted post: six literal parts around
    the five interpolated values; [age] is what [post.get_age_str()]
    returned. *)
Definition block_1 : str :=
  join_nl [
    [];
    py "        <div class=" ++ dq ++ py "post" ++ dq ++ py ">";
    py "            <div class=" ++ dq ++ py "subreddit" ++ dq ++ py ">r/"
  ].

Definition block_2 : str :=
  join_nl [
    py "</div>";
    py "            <div class=" ++ dq ++ py "title" ++ dq ++ py ">";
    py "                <a href=" ++ dq
  ].

Definition block_3 : str :=
  join_nl [
    dq ++ py " target=" ++ dq ++ py "_blank" ++ dq ++ py ">";
    py "                    "
  ].

Definition block_4 : str := py " <span class=" ++ dq ++ py "age" ++ dq ++ py ">(".

Definition block_5 : str :=
  join_nl [
    py ")</span>";
    py "                </a>";
    py "            </div>";
    py "            <div class=" ++ dq ++ py "reason" ++ dq ++ py ">"
  ].

Definition block_6 : str :=
  join_nl [ py "</div>"; py "        </div>"; py "        " ].

Definition post_block (post : Post) (age reason : str) : str :=
  block_1 ++ subreddit post ++ block_2 ++ get_full_url post ++ block_3
  ++ title post ++ block_4 ++ age ++ block_5 ++ reason ++ block_6.

(** The closing literal. *)
Definition report_tail : str :=
  join_nl [ []; py "    </body>"; py "    </html>"; py "    " ].

Section Renderer.
(** The clock: what [datetime.now()] returns, and the reading of the
    [k]-th call of [time.time()]. *)
Variable now : datetime.
Variable time_ : nat → float.

(** The [for post, reason in filtered_posts] loop; [k] counts the clock
    readings made so far. *)
Fixpoint render_posts (k : nat) (html : str)
    (filtered_posts : list (Post * str)) : result str :=
  match filtered_posts with
  | [] => Returns html
  | (post, reason) :: rest =>
      age ←! get_age_str (time_ k) post;
      render_posts (S k) (html ++ post_block post age reason) rest
  end.

Definition build_html_report (filtered_posts : list (Post * str))
    : result str :=
  let timestamp := strftime now in
  let html := report_head timestamp (length filtered_posts) in
  html ←! render_posts 0 html filtered_posts;
  Returns (html ++ report_tail).
End Renderer.

(** ** Delivery: [send_email] *)

(** Code points that are decimal digit zero in some script; each starts a
    run of ten digits. *)
Definition decimal_zeros : list N :=
  [48; 1632; 1776; 1984; 2406; 2534; 2662; 2790; 2918; 3046; 3174; 3302;
   3430; 3558; 3664; 3792; 3872; 4160; 4240; 6112; 6160; 6470; 6608; 6784;
   6800; 6992; 7088; 7232; 7248; 42528; 43216; 43264; 43472; 43504; 43600;
   44016; 65296; 66720; 68912; 69734; 69872; 69942; 70096; 70384; 70736;
   70864; 71248; 71360; 71472; 71904; 72016; 72784; 73040; 73120; 92768;
   92864; 93008; 120782; 120792; 120802; 120812; 120822; 123200; 123632;
   125264; 130032]%N.

Definition digit_value (c : N) : option N :=
  match find (λ z, (z <=? c) && (c <=? z + 9))%N decimal_zeros with
  | Some z => Some (c - z)%N
  | None => None
  end.

(** White space [int] skips around a literal: ASCII white space and the
    non-ASCII Unicode spaces. *)
Definition int_space (c : N) : bool :=
  isspace c && negb ((28 <=? c) && (c <=? 31))%N.

(** Digits, with single underscores allowed between two digits. *)
Fixpoint digits_value (acc : N) (after_digit : bool) (s : str) : option N :=
  match s with
  | [] => if after_digit then Some acc else None
  | c :: s' =>
      if (c =? 95)%N then
        if after_digit then digits_value acc false s' else None
      else match digit_value c with
           | Some d => digits_value (10 * acc + d)%N true s'
           | None => None
           end
  end.

(** [sys.get_int_max_str_digits()], at its default. *)
Definition int_max_str_digits : nat := 4300.

(** [int(s)] for a string, base ten; [ValueError] when [s] is no literal,
    or has more digits (underscores apart, leading zeros included) than
    the interpreter converts. *)
Definition int_of_str (s : str) : result Z :=
  let t := strip_by int_space s in
  let '(negative, body) :=
    match t with
    | 45%N :: b => (true, b)
    | 43%N :: b => (false, b)
    | _ => (false, t)
    end in
  match digits_value 0 false body with
  | Some n =>
      if (int_max_str_digits <? length (filter (λ c, c ≠ 95%N) body))%nat
      then Raises ValueError
      else Returns (if negative then (- Z.of_N n)%Z else Z.of_N n)
  | None => Raises ValueError
  end.

(** [os.getenv(name, default)] with a string default. *)
Definition getenv_or (env : gmap string str) (name : string) (d : str) : str :=
  default d (env !! name).

Record message : Type := {
  msg_subject : str; msg_from : str; msg_to : str; msg_html : str
}.

(** The operations of the mail session, each a network exchange. *)
Inductive smtp_op : Type :=
  | Connect (host : str) (port : Z)             (* smtplib.SMTP(host, port) *)
  | StartTLS
  | Login (username password : str)
  | SendMessage (msg : message)
  | Quit.

Section Delivery.
Variable env : gmap string str.
(** The mail server: whether an operation raises, given those before. *)
Variable smtp : list smtp_op → smtp_op → option exn.

(** The statements of the [try] block, left to right; the result is
    whether all of them went through, and the operations attempted. *)
Fixpoint session (performed todo : list smtp_op) : bool * list smtp_op :=
  match todo with
  | [] => (true, performed)
  | op :: rest =>
      match smtp performed op with
      | None => session (performed ++ [op]) rest
      | Some _ => (false, performed ++ [op])
      end
  end.

(** [send_email], for a body that [MIMEText] (line 372) encodes and with
    prints that go through: the value returned or the exception that
    escapes, and the network operations attempted.  [IO.send_email] has
    the message construction and the prints. *)
Definition send_email (recipient : option str) (subject html_content : str)
    : result bool * list smtp_op :=
  let smtp_server := getenv_or env "SMTP_SERVER" (py "smtp.gmail.com") in
  match int_of_str (getenv_or env "SMTP_PORT" (py "587")) with
  | Raises e => (Raises e, [])
  | Returns smtp_port =>
      let smtp_username := getenv env "SMTP_USERNAME" in
      let smtp_password := getenv env "SMTP_PASSWORD" in
      let sender_email := getenv_default env "SENDER_EMAIL" smtp_username in
      if negb (truthy smtp_username && truthy smtp_password
               && truthy sender_email && truthy recipient)
      then (Returns false, [])
      else
        let msg := {| msg_subject := subject;
                      msg_from := default [] sender_email;
                      msg_to := default [] recipient;
                      msg_html := html_content |} in
        let '(ok, ops) :=
          session [] [ Connect smtp_server smtp_port; StartTLS;
                       Login (default [] smtp_username)
                             (default [] smtp_password);
                       SendMessage msg; Quit ] in
        (Returns ok, ops)
  end.
End Delivery.

(** ** Post source: [fetch_new_posts] *)

(** The attributes of a PRAW submission the program reads; [sub_author] is
    [None] for a deleted account. *)
Record Submission : Type := {
  sub_title : str;
  sub_author : option str;
  sub_score : Z;
  sub_url : str;
  sub_created_utc : float;
  sub_num_comments : Z;
  sub_selftext : str;
  sub_display_name : str;
  sub_permalink : str
}.

(** The [Post(...)] built in the authenticated loop; [str(None)] is
    ["None"]. *)
Definition post_of_submission (s : Submission) : Post :=
  {| title := sub_title s;
     author := default (py "None") (sub_author s);
     score := sub_score s;
     url := sub_url s;
     created_utc := sub_created_utc s;
     num_comments := sub_num_comments s;
     selftext := Some (sub_selftext s);
     subreddit := sub_display_name s;
     permalink := sub_permalink s |}.

(** What iterating [subreddit_obj.new(limit=limit)] does: the submissions
    handed over (and turned into posts) before the listing ends, and the
    exception that ended it, if one did.  A failure of [praw.Reddit] or of
    the first request is a fault with nothing yielded. *)
Record praw_listing : Type := {
  yielded : list Submission;
  fault : option exn
}.

(** A decoded JSON document ([response.json()]); an object is its list of
    members, keys distinct. *)
#[local] Set Warnings "-register-all".
Inductive json : Type :=
  | JNull
  | JBool (b : bool)
  | JInt (z : Z)
  | JFloat (f : float)
  | JStr (s : str)
  | JList (items : list json)
  | JDict (members : list (str * json)).

#[local] Set Warnings "+register-all".

(** What [requests.get] does: raise, or return a response with a status
    code and a body ([None] when the body is not JSON, on which
    [response.json()] raises a [RequestException]). *)
Inductive http_outcome : Type :=
  | GetRaises (e : exn)
  | Response (status_code : Z) (body : option json).

Fixpoint assoc (key : str) (members : list (str * json)) : option json :=
  match members with
  | [] => None
  | (k, v) :: rest => if bool_decide (k = key) then Some v else assoc key rest
  end.

(** [v[key]] for a string key. *)
Definition subscript (v : json) (key : str) : result json :=
  match v with
  | JDict members =>
      match assoc key members with
      | Some x => Returns x
      | None => Raises KeyError
      end
  | _ => Raises TypeError
  end.

(** The values [for item in v] runs through. *)
Definition iterate (v : json) : result (list json) :=
  match v with
  | JList items => Returns items
  | JDict members => Returns (map (λ kv, JStr (fst kv)) members)
  | JStr s => Returns (map (λ c, JStr [c]) s)
  | _ => Raises TypeError
  end.

(** The [Post(...)] built from one entry of the listing.  The lookups run
    in the order of the keyword arguments and raise on the first key that
    is missing.  [Returns None] marks an entry whose members are all
    present but not all of the type [Post] declares: Python stores such a
    value unchecked, and the typed record cannot hold it. *)
Definition post_of_item (item : json) : result (option Post) :=
  post_data ←! subscript item (py "data");
  j_title ←! subscript post_data (py "title");
  j_author ←! subscript post_data (py "author");
  j_score ←! subscript post_data (py "score");
  j_url ←! subscript post_data (py "url");
  j_created ←! subscript post_data (py "created_utc");
  j_comments ←! subscript post_data (py "num_comments");
  let j_selftext :=
    match post_data with
    | JDict members => default (JStr []) (assoc (py "selftext") members)
    | _ => JStr []
    end in
  j_subreddit ←! subscript post_data (py "subreddit");
  j_permalink ←! subscript post_data (py "permalink");
  Returns
    match j_title, j_author, j_score, j_url, j_created, j_comments,
          j_subreddit, j_permalink with
    | JStr t, JStr a, JInt sc, JStr u, JFloat c, JInt n, JStr sr, JStr pl =>
        match j_selftext with
        | JStr body =>
            Some {| title := t; author := a; score := sc; url := u;
                    created_utc := c; num_comments := n;
                    selftext := Some body; subreddit := sr; permalink := pl |}
        | JNull =>
            Some {| title := t; author := a; score := sc; url := u;
                    created_utc := c; num_comments := n;
                    selftext := None; subreddit := sr; permalink := pl |}
        | _ => None
        end
    | _, _, _, _, _, _, _, _ => None
    end.

(** The loop over [data["data"]["children"]], appending to [posts];
    [Returns None] as in [post_of_item]. *)
Fixpoint append_items (posts : list Post) (items : list json)
    : result (option (list Post)) :=
  match items with
  | [] => Returns (Some posts)
  | item :: rest =>
      p ←! post_of_item item;
      match p with
      | Some post => append_items (posts ++ [post]) rest
      | None => _ ←! append_items posts rest; Returns None
      end
  end.

(** The ways [fetch_new_posts] ends. *)
Inductive fetched : Type :=
  | Fetched (posts : list Post)     (* return posts *)
  | Propagates (e : exn)            (* an exception leaves the function *)
  | Untyped.                        (* posts outside the declared types *)

Definition is_request_exception (e : exn) : bool :=
  match e with
  | RequestException => true
  | _ => false
  end.

Section PostSource.
Variable env : gmap string str.
(** [praw.Reddit(client_id, client_secret, user_agent)] and the listing
    of [subreddit] with [limit]. *)
Variable praw_new : str → str → str → str → Z → praw_listing.
(** [requests.get(url, headers, params, proxies, timeout=10)], by URL,
    user agent, limit and proxy. *)
Variable requests_get : str → str → Z → option str → http_outcome.

(** The body of the second [try] block, with [posts] as left by the
    first. *)
Definition anonymous_try (posts : list Post) (user_agent subreddit_name : str)
    (limit : Z) : result (option (list Post)) :=
  let url := py "https://www.reddit.com/r/" ++ subreddit_name
             ++ py "/new.json" in
  let proxy := getenv env "HTTP_PROXY" in
  let proxies := if truthy proxy then proxy else None in
  match requests_get url user_agent limit proxies with
  | GetRaises e => Raises e
  | Response status_code body =>
      (* response.raise_for_status() *)
      if ((400 <=? status_code) && (status_code <? 600))%Z
      then Raises RequestException
      else
        (* data = response.json() *)
        match body with
        | None => Raises RequestException
        | Some data =>
            listing ←! subscript data (py "data");
            children ←! subscript listing (py "children");
            items ←! iterate children;
            append_items posts items
        end
  end.

(** The fallback under [except requests.exceptions.RequestException],
    then [return posts]. *)
Definition anonymous_path (posts : list Post) (user_agent subreddit_name : str)
    (limit : Z) : fetched :=
  match anonymous_try posts user_agent subreddit_name limit with
  | Returns (Some posts') => Fetched posts'
  | Returns None => Untyped
  | Raises e => if is_request_exception e then Fetched posts else Propagates e
  end.

Definition fetch_new_posts (subreddit_name : str) (limit : Z) : fetched :=
  let posts := [] in
  let client_id := getenv env "REDDIT_CLIENT_ID" in
  let client_secret := getenv env "REDDIT_CLIENT_SECRET" in
  let user_agent :=
    getenv_or env "REDDIT_USER_AGENT"
      (py "python:idea-filter:v1.0 (by /u/yourusername)") in
  if truthy client_id && truthy client_secret then
    let listing := praw_new (default [] client_id) (default [] client_secret)
                            user_agent subreddit_name limit in
    let posts := posts ++ map post_of_submission (yielded listing) in
    match fault listing with
    | None => Fetched posts
    | Some _ => anonymous_path posts user_agent subreddit_name limit
    end
  else anonymous_path posts user_agent subreddit_name limit.
End PostSource.

(** ** Auxiliary definitions for the statements below *)

Section ClassifierSpec.
Variable create : list str → str → result completion.
Variable filter_criteria : str.

(** The pairs the loop accepts on [posts] when [sent] holds the prompts
    sent before: each post is judged by the one call made for it. *)
Fixpoint accepted_from (sent : list str) (posts : list Post)
    : list (Post * str) :=
  match posts with
  | [] => []
  | post :: rest =>
      let prompt := build_prompt filter_criteria post in
      match verdict (create sent prompt) with
      | Some reason => (post, reason) :: accepted_from (sent ++ [prompt]) rest
      | None => accepted_from (sent ++ [prompt]) rest
      end
  end.

(** The service with the answer to one call (the one made after [sent]
    with [prompt]) replaced by [answer]. *)
Definition answer_replaced (sent : list str) (prompt : str)
    (answer : result completion) : list str → str → result completion :=
  λ sent' prompt',
    if bool_decide (sent' = sent ∧ prompt' = prompt) then answer
    else create sent' prompt'.
End ClassifierSpec.

Definition is_Returns {A} (r : result A) : Prop :=
  match r with
  | Returns _ => True
  | Raises _ => False
  end.

(** The titles and permalinks of a list of results, in order. *)
Definition titles_permalinks (results : list (Post * str)) : list (str * str) :=
  map (λ pr, (title (fst pr), permalink (fst pr))) results.

(** Modelled from the spec: the re-parsing of the document's post blocks
    (section 8, round trip).  The repository has no parser; this one reads
    every link the renderer writes: the permalink is the rest of the
    [href] value after the forum origin, the title is the link text up to
    the age annotation. *)
Definition link_open : str := py "<a href=" ++ dq ++ py "https://www.reddit.com".

Definition link_mid : str :=
  dq ++ py " target=" ++ dq ++ py "_blank" ++ dq ++ py ">" ++ nl
  ++ py "                    ".

Fixpoint strip_prefix (p s : str) : option str :=
  match p, s with
  | [], _ => Some s
  | a :: p', b :: s' => if (a =? b)%N then strip_prefix p' s' else None
  | _ :: _, [] => None
  end.

Fixpoint take_until (c : N) (s : str) : str :=
  match s with
  | [] => []
  | x :: s' => if (x =? c)%N then [] else x :: take_until c s'
  end.

Fixpoint drop_until (c : N) (s : str) : str :=
  match s with
  | [] => []
  | x :: s' => if (x =? c)%N then s else drop_until c s'
  end.

(** The link that starts at the head of [s], if one does. *)
Definition parse_link (s : str) : option (str * str) :=
  match strip_prefix link_open s with
  | None => None
  | Some rest =>
      match strip_prefix link_mid (drop_until 34 rest) with
      | None => None
      | Some text => Some (removelast (take_until 60 text), take_until 34 rest)
      end
  end.

Fixpoint parse_posts (doc : str) : list (str * str) :=
  match doc with
  | [] => []
  | _ :: rest =>
      match parse_link doc with
      | Some tp => tp :: parse_posts rest
      | None => parse_posts rest
      end
  end.

(** Sample data for the closed instances below. *)
Definition sample_post : Post :=
  {| title := py "Is there an app for tracking lease renewals?";
     author := py "landlord42"; score := 3;
     url := py "https://www.reddit.com/r/PropTech/comments/1abcde/lease/";
     created_utc := 1700000000%float; num_comments := 2;
     selftext := Some (py "Spreadsheets are not cutting it."); subreddit := py "PropTech";
     permalink := py "/r/PropTech/comments/1abcde/lease/" |}.

Definition sample_env : gmap string str :=
  {[ "OPENROUTER_KEY" := py "sk-or-v1-0123456789abcdef" ]}.

Definition sample_criteria : str := py "Does the post ask for software?".

Definition sample_post_2 : Post :=
  {| title := py "Anyone using AI for grading essays?";
     author := py "teach_r"; score := 11;
     url := py "https://www.reddit.com/r/EdTech/comments/1fghij/grading/";
     created_utc := 1700003600%float; num_comments := 7;
     selftext := None; subreddit := py "EdTech";
     permalink := py "/r/EdTech/comments/1fghij/grading/" |}.

(** A service whose first call fails and whose later calls accept. *)
Definition failing_first : list str → str → result completion :=
  λ sent _,
    match sent with
    | [] => Raises OtherError
    | _ => Returns [Some (py "YES" ++ nl ++ py "Asks for a grading tool.")]
    end.

Section RendererSpec.
Variable time_ : nat → float.

(** The blocks the loop appends for [results] when [k] clock readings were
    made before, or the exception of the first age that cannot be
    computed. *)
Fixpoint blocks_from (k : nat) (results : list (Post * str)) : result str :=
  match results with
  | [] => Returns []
  | (post, reason) :: rest =>
      age ←! get_age_str (time_ k) post;
      blocks ←! blocks_from (S k) rest;
      Returns (post_block post age reason ++ blocks)
  end.
End RendererSpec.

(** [s] differs from [p] at a position both have, so no extension of [s]
    starts with [p]. *)
Fixpoint mismatch (p s : str) : bool :=
  match p, s with
  | a :: p', b :: s' => if (a =? b)%N then mismatch p' s' else true
  | _, _ => false
  end.

(** No link starts inside [s], whatever follows [s]. *)
Fixpoint clean (s : str) : bool :=
  match s with
  | [] => true
  | _ :: s' => mismatch link_open s && clean s'
  end.

Definition sample_now : datetime :=
  {| year := 2026; month := 11; day := 3; hour := 4; minute := 5; second := 6 |}.

Definition sample_later : datetime :=
  {| year := 2026; month := 11; day := 3; hour := 4; minute := 5; second := 7 |}.

#[global] Instance exn_eq_dec : EqDecision exn.
Proof. solve_decision. Defined.

#[global] Instance result_eq_dec {A} `{EqDecision A} : EqDecision (result A).
Proof. solve_decision. Defined.

(** A post and a reason that carry markup. *)
Definition markup_post : Post :=
  {| title := py "Need a <b>CRM</b> for tutors & coaches";
     author := py "tutor_anna"; score := 5;
     url := py "https://example.org/?a=1&b=2";
     created_utc := 1700000000%float; num_comments := 0;
     selftext := Some []; subreddit := py "EdTech";
     permalink := py "/r/EdTech/comments/1klmno/crm/" |}.

Definition markup_reason : str := py "<script>alert(1)</script> asks for a CRM".

(** [link_open] without its first code point, and the part of [block_2]
    before the link. *)
Definition link_rest : str := py "a href=" ++ dq ++ py "https://www.reddit.com".

Definition block_2_lead : str :=
  join_nl [
    py "</div>";
    py "            <div class=" ++ dq ++ py "title" ++ dq ++ py ">";
    py "                "
  ].

(** Two one-result inputs that differ in title and reason: the text
    between title and reason in the template is moved from one field to
    the other. *)
Definition between_title_and_reason : str := block_4 ++ py "30s" ++ block_5.

Definition collide_post (t : str) : Post :=
  {| title := t; author := py "u"; score := 1; url := [];
     created_utc := 1700000000%float; num_comments := 0;
     selftext := Some []; subreddit := py "EdTech";
     permalink := py "/r/EdTech/comments/1pqrst/x/" |}.

Definition collide_input_1 : list (Post * str) :=
  [(collide_post (py "A" ++ between_title_and_reason ++ py "B"), py "C")].

Definition collide_input_2 : list (Post * str) :=
  [(collide_post (py "A"), py "B" ++ between_title_and_reason ++ py "C")].

(** A result whose interpolated texts hold no less-than sign and whose
    permalink holds no double quote. *)
Definition markup_free (pr : Post * str) : Prop :=
  (LT ∉ title (fst pr)) ∧ (LT ∉ subreddit (fst pr))
  ∧ (LT ∉ permalink (fst pr)) ∧ (QUOTE ∉ permalink (fst pr))
  ∧ (LT ∉ snd pr).

(** Mail settings with user name and password but neither host nor
    port, and the same with a port that is no number. *)
Definition mail_env : gmap string str :=
  {[ "SMTP_USERNAME" := py "digest@example.org";
     "SMTP_PASSWORD" := py "app-password" ]}.

Definition bad_port_env : gmap string str :=
  <[ "SMTP_PORT" := py "abc" ]> mail_env.

Definition sample_recipient : option str := Some (py "founder@example.org").

(** A mail server on which every operation goes through. *)
Definition smtp_accepts : list smtp_op → smtp_op → option exn := λ _ _, None.

(** Forum credentials, a submission, and the entry of the public listing
    for the same submission. *)
Definition reddit_env : gmap string str :=
  {[ "REDDIT_CLIENT_ID" := py "client-id";
     "REDDIT_CLIENT_SECRET" := py "client-secret" ]}.

Definition sample_submission : Submission :=
  {| sub_title := py "Is there an app for tracking lease renewals?";
     sub_author := Some (py "landlord42"); sub_score := 3;
     sub_url := py "https://www.reddit.com/r/PropTech/comments/1abcde/lease/";
     sub_created_utc := 1700000000%float; sub_num_comments := 2;
     sub_selftext := py "Spreadsheets are not cutting it.";
     sub_display_name := py "PropTech";
     sub_permalink := py "/r/PropTech/comments/1abcde/lease/" |}.

Definition sample_item : json :=
  JDict [ (py "kind", JStr (py "t3"));
          (py "data",
           JDict [ (py "title",
                    JStr (py "Is there an app for tracking lease renewals?"));
                   (py "author", JStr (py "landlord42"));
                   (py "score", JInt 3);
                   (py "url",
                    JStr (py "https://www.reddit.com/r/PropTech/comments/1abcde/lease/"));
                   (py "created_utc", JFloat 1700000000%float);
                   (py "num_comments", JInt 2);
                   (py "selftext", JStr (py "Spreadsheets are not cutting it."));
                   (py "subreddit", JStr (py "PropTech"));
                   (py "permalink",
                    JStr (py "/r/PropTech/comments/1abcde/lease/")) ]) ].

Definition sample_listing : json :=
  JDict [ (py "kind", JStr (py "Listing"));
          (py "data", JDict [ (py "children", JList [sample_item]) ]) ].

(** An authenticated listing that hands over one submission and then
    fails. *)
Definition praw_fails_after_one : str → str → str → str → Z → praw_listing :=
  λ _ _ _ _ _, {| yielded := [sample_submission]; fault := Some OtherError |}.

(** The anonymous endpoint: timing out, answering with the listing, and
    answering 200 with the JSON body [{}]. *)
Definition get_times_out : str → str → Z → option str → http_outcome :=
  λ _ _ _ _, GetRaises RequestException.

Definition get_listing : str → str → Z → option str → http_outcome :=
  λ _ _ _ _, Response 200 (Some sample_listing).

Definition get_empty_object : str → str → Z → option str → http_outcome :=
  λ _ _ _ _, Response 200 (Some (JDict [])).

(** ** Configuration check: [validate_env_variables] *)

(** The two dictionaries, in insertion order. *)
Definition required_vars : list (string * string) :=
  [ ("OPENROUTER_KEY", "Required for Gemini API access via OpenRouter") ]%string.

Definition optional_vars : list (string * string) :=
  [ ("RECIPIENT_EMAIL", "Required for email sending functionality");
    ("SMTP_SERVER", "Used for email functionality (default: smtp.gmail.com)");
    ("SMTP_PORT", "Used for email functionality (default: 587)");
    ("SMTP_USERNAME", "Required for email authentication");
    ("SMTP_PASSWORD", "Required for email authentication");
    ("SENDER_EMAIL", "Used for email sending (defaults to SMTP_USERNAME)");
    ("REDDIT_CLIENT_ID", "Required for Reddit API authentication");
    ("REDDIT_CLIENT_SECRET", "Required for Reddit API authentication");
    ("REDDIT_USER_AGENT", "Required for Reddit API authentication") ]%string.

(** The loop [for var, description in vars.items()] with its
    [if not os.getenv(var)]: the entries [f"{var}: {description}"] of the
    variables that are unset or empty. *)
Fixpoint missing_vars (env : gmap string str) (vars : list (string * string))
    : list str :=
  match vars with
  | [] => []
  | (var, description) :: rest =>
      if truthy (getenv env var)
      then missing_vars env rest
      else (py var ++ py ": " ++ py description) :: missing_vars env rest
  end.

(** [validate_env_variables]: the value returned and the arguments of the
    [print] calls, in order.  Diagnostics are all this function does, so
    here they are kept. *)
Definition validate_env_variables (env : gmap string str) : bool * list str :=
  let missing_required := missing_vars env required_vars in
  let missing_optional := missing_vars env optional_vars in
  match missing_required, missing_optional with
  | _ :: _, _ =>
      (false,
       [py "ERROR: The following required environment variables are missing:"]
       ++ map (λ var, py "  - " ++ var) missing_required
       ++ [nl ++ py "Make sure you have a proper .env file in your project directory."])
  | [], _ :: _ =>
      (true,
       [py "WARNING: The following optional environment variables are missing:"]
       ++ map (λ var, py "  - " ++ var) missing_optional
       ++ [nl ++ py "Some functionality may be limited."])
  | [], [] => (true, [])
  end.

(** ** The pipeline: [main] *)

Definition subreddits : list str :=
  [ py "RealEstateTechnology"; py "PropTech"; py "HealthTech"; py "EdTech" ].

Definition main_filter_criteria : str :=
  py "Does the post include a user posing a question, asking for reccomendation or about the existence of some software that could lay the groundwork for a startup. For example, a user might ask others if they've used AI for generating leads, or if they've had any luck using AI for product photography. The user should NOT be promoting their own existing company. Exclude posts that simply ask a question about an existing technology.".

(** [d.strftime('%Y-%m-%d')], for the years 1000 to 9999. *)
Definition strftime_date (d : datetime) : str :=
  zfill 4 (str_of_N (year d)) ++ py "-" ++ zfill 2 (str_of_N (month d))
  ++ py "-" ++ zfill 2 (str_of_N (day d)).

(** How a run of [main] ends. *)
Inductive main_end : Type :=
  | Completed                  (* main returns *)
  | Escapes (e : exn)          (* an exception leaves main *)
  | OutsideTypes.              (* a fetch produced posts outside the types *)

(** What a run of [main] does: the forums fetched, the prompts sent to the
    model, the mail operations attempted, and how it ends. *)
Record main_run : Type := {
  run_forums : list str;
  run_prompts : list str;
  run_mail : list smtp_op;
  run_end : main_end
}.

Section Pipeline.
Variable env : gmap string str.
Variable praw_new : str → str → str → str → Z → praw_listing.
Variable requests_get : str → str → Z → option str → http_outcome.
Variable create : list str → str → result completion.
(** The clock: [datetime.now()] in the renderer, the [time.time()]
    readings, and [datetime.now()] for the subject line. *)
Variable now : datetime.
Variable time_ : nat → float.
Variable now_subject : datetime.
Variable smtp : list smtp_op → smtp_op → option exn.

(** The loop over [subreddits]: [all_posts] so far and the forums fetched
    so far; it ends early when a fetch does not return. *)
Fixpoint collect_posts (forums : list str) (all_posts : list Post)
    (fetched_forums : list str) : fetched * list str :=
  match forums with
  | [] => (Fetched all_posts, fetched_forums)
  | forum :: rest =>
      match fetch_new_posts env praw_new requests_get forum 10 with
      | Fetched posts =>
          collect_posts rest (all_posts ++ posts) (fetched_forums ++ [forum])
      | Propagates e => (Propagates e, fetched_forums ++ [forum])
      | Untyped => (Untyped, fetched_forums ++ [forum])
      end
  end.

(** [main], over the first layer's classifier and delivery. *)
Definition main : main_run :=
  if negb (fst (validate_env_variables env)) then
    {| run_forums := []; run_prompts := []; run_mail := [];
       run_end := Completed |}
  else
    let recipient_email := getenv env "RECIPIENT_EMAIL" in
    match collect_posts subreddits [] [] with
    | (Propagates e, forums) =>
        {| run_forums := forums; run_prompts := []; run_mail := [];
           run_end := Escapes e |}
    | (Untyped, forums) =>
        {| run_forums := forums; run_prompts := []; run_mail := [];
           run_end := OutsideTypes |}
    | (Fetched [], forums) =>
        {| run_forums := forums; run_prompts := []; run_mail := [];
           run_end := Completed |}
    | (Fetched all_posts, forums) =>
        let '(filtered_post_tuples, sent) :=
          filter_posts_with_gemini_run create main_filter_criteria env
            all_posts in
        match filtered_post_tuples with
        | [] =>
            {| run_forums := forums; run_prompts := sent; run_mail := [];
               run_end := Completed |}
        | _ :: _ =>
            match build_html_report now time_ filtered_post_tuples with
            | Raises e =>
                {| run_forums := forums; run_prompts := sent; run_mail := [];
                   run_end := Escapes e |}
            | Returns html_report =>
                if truthy recipient_email then
                  let subject :=
                    py "Reddit Idea Filter Report - "
                    ++ strftime_date now_subject in
                  match send_email env smtp recipient_email subject
                          html_report with
                  | (Returns _, ops) =>
                      {| run_forums := forums; run_prompts := sent;
                         run_mail := ops; run_end := Completed |}
                  | (Raises e, ops) =>
                      {| run_forums := forums; run_prompts := sent;
                         run_mail := ops; run_end := Escapes e |}
                  end
                else
                  {| run_forums := forums; run_prompts := sent;
                     run_mail := []; run_end := Completed |}
            end
        end
    end.
End Pipeline.

(** The entry of the public listing that carries the fields of [p]. *)
Definition item_of_post (p : Post) : json :=
  JDict [ (py "kind", JStr (py "t3"));
          (py "data",
           JDict [ (py "title", JStr (title p));
                   (py "author", JStr (author p));
                   (py "score", JInt (score p));
                   (py "url", JStr (url p));
                   (py "created_utc", JFloat (created_utc p));
                   (py "num_comments", JInt (num_comments p));
                   (py "selftext",
                    match selftext p with
                    | Some body => JStr body
                    | None => JNull
                    end);
                   (py "subreddit", JStr (subreddit p));
                   (py "permalink", JStr (permalink p)) ]) ].

Definition listing_of_posts (posts : list Post) : json :=
  JDict [ (py "kind", JStr (py "Listing"));
          (py "data",
           JDict [ (py "children", JList (map item_of_post posts)) ]) ].

(** The keys [post_of_item] looks up with a subscript. *)
Definition subscripted_keys : list str :=
  [ py "title"; py "author"; py "score"; py "url"; py "created_utc";
    py "num_comments"; py "subreddit"; py "permalink" ].

(** The operations [send_email] attempts, in order, for a message. *)
Definition mail_plan (host : str) (port : Z) (username password : str)
    (msg : message) : list smtp_op :=
  [ Connect host port; StartTLS; Login username password; SendMessage msg;
    Quit ].

(** A mail server on which everything but [quit] goes through. *)
Definition smtp_quit_fails : list smtp_op → smtp_op → option exn :=
  λ _ op, match op with Quit => Some OtherError | _ => None end.


Definition accepts_all : list str → str → result completion :=
  λ _ _, Returns [Some (py "YES" ++ nl ++ py "Asks for a tool.")].

(** ** The second layer: console and object construction *)

(** The [print] calls whose text holds data that is not a constant of the
    program: a title, a configured value, the text of an exception (the
    texts of lines 251 and 253 start with a check mark and a cross as
    well).  On a console that cannot write such a text, [print] raises.
    The other [print] calls write ASCII constants and numbers. *)
Inductive print_call : Type :=
  | PrintKey (first5 last4 : str)          (* line 231 *)
  | PrintAccepted (title_ : str)           (* line 251 *)
  | PrintRejected (title_ : str)           (* line 253 *)
  | PrintError (title_ : str) (e : exn)    (* line 256 *)
  | PrintSent (recipient : str)            (* line 380 *)
  | PrintFailed (e : exn)                  (* line 383 *)
  | PrintReportSent (recipient : str).     (* line 436 *)

(** [a == b] for two [Post] objects built apart, field by field; floats
    compare as IEEE numbers (NaN is unequal to NaN). *)
Definition post_eq (a b : Post) : bool :=
  bool_decide (title a = title b) && bool_decide (author a = author b)
  && bool_decide (score a = score b) && bool_decide (url a = url b)
  && (created_utc a =? created_utc b)%float
  && bool_decide (num_comments a = num_comments b)
  && bool_decide (selftext a = selftext b)
  && bool_decide (subreddit a = subreddit b)
  && bool_decide (permalink a = permalink b).

(** [posts.index(post) == 0] for the post met at position [i] of the
    loop: it is the first element, or equal to it. *)
Definition index_is_zero (posts : list Post) (i : nat) (post : Post) : bool :=
  match posts with
  | [] => false
  | first :: _ => (i =? 0)%nat || post_eq first post
  end.

(** A surrogate, a code point between U+D800 and U+DFFF: neither of the
    encodings [MIMEText] tries (us-ascii, utf-8) encodes it. *)
Definition has_surrogate (s : str) : bool :=
  existsb (λ c, (55296 <=? c) && (c <=? 57343))%N s.

(** The state of the classifier's run: [filtered_posts], the prompts
    sent, and the [print] calls made on the console. *)
Record classify_state : Type := {
  cs_filtered : list (Post * str);
  cs_sent : list str;
  cs_printed : list print_call
}.

Module IO.

Section Classifier.
(** [OpenAI(base_url=..., api_key=...)]: the exception the constructor
    raises, if it raises. *)
Variable construct : str → option exn.
(** The console: whether a [print] raises, given those made before. *)
Variable console : list print_call → print_call → option exn.
Variable create : list str → str → result completion.
Variable filter_criteria : str.

(** One [print]: the call is recorded; [Some e] when it raises. *)
Definition emit (st : classify_state) (call : print_call)
    : classify_state * option exn :=
  ({| cs_filtered := cs_filtered st; cs_sent := cs_sent st;
      cs_printed := cs_printed st ++ [call] |},
   console (cs_printed st) call).

(** The [try] block for [post]: the state it leaves, and the exception it
    raises, if it raises.  The pair is appended before the acceptance is
    printed. *)
Definition try_block (debug : bool) (key : str) (st : classify_state)
    (post : Post) : classify_state * option exn :=
  let prompt := build_prompt filter_criteria post in
  let '(st1, raised) :=
    if debug
    then emit st (PrintKey (take 5 key) (drop (length key - 4) key))
    else (st, None) in
  match raised with
  | Some e => (st1, Some e)
  | None =>
      let outcome := create (cs_sent st1) prompt in
      let st2 := {| cs_filtered := cs_filtered st1;
                    cs_sent := cs_sent st1 ++ [prompt];
                    cs_printed := cs_printed st1 |} in
      match try_classify outcome with
      | Raises e => (st2, Some e)
      | Returns (Some reason) =>
          emit {| cs_filtered := cs_filtered st2 ++ [(post, reason)];
                  cs_sent := cs_sent st2; cs_printed := cs_printed st2 |}
               (PrintAccepted (title post))
      | Returns None => emit st2 (PrintRejected (title post))
      end
  end.

(** One iteration: the [try] block, and the handler of [except Exception]
    with its own [print], whose exception nothing catches. *)
Definition classify_post (debug : bool) (key : str) (st : classify_state)
    (post : Post) : classify_state * option exn :=
  let '(st1, raised) := try_block debug key st post in
  match raised with
  | None => (st1, None)
  | Some e => emit st1 (PrintError (title post) e)
  end.

(** The loop over [posts], from position [i] on [rest]; it stops when an
    exception leaves an iteration. *)
Fixpoint classify_loop (posts : list Post) (key : str) (i : nat)
    (st : classify_state) (rest : list Post) : classify_state * option exn :=
  match rest with
  | [] => (st, None)
  | post :: rest' =>
      match classify_post (index_is_zero posts i post) key st post with
      | (st1, None) => classify_loop posts key (S i) st1 rest'
      | (st1, Some e) => (st1, Some e)
      end
  end.

(** [filter_posts_with_gemini]: the state the run leaves, and the list
    returned or the exception that leaves the function. *)
Definition filter_posts_with_gemini (env : gmap string str)
    (printed : list print_call) (posts : list Post)
    : classify_state * result (list (Post * str)) :=
  let start := {| cs_filtered := []; cs_sent := []; cs_printed := printed |} in
  let openrouter_key := getenv env "OPENROUTER_KEY" in
  if truthy openrouter_key then
    match construct (default [] openrouter_key) with
    | Some e => (start, Raises e)
    | None =>
        match classify_loop posts (default [] openrouter_key) 0 start posts with
        | (st, None) => (st, Returns (cs_filtered st))
        | (st, Some e) => (st, Raises e)
        end
    end
  else (start, Returns []).
End Classifier.

Section Delivery.
Variable env : gmap string str.
Variable smtp : list smtp_op → smtp_op → option exn.
Variable console : list print_call → print_call → option exn.

(** The mail operations of the [try] block, left to right: the exception
    of the first one that raises, and the operations attempted. *)
Fixpoint session (performed todo : list smtp_op) : option exn * list smtp_op :=
  match todo with
  | [] => (None, performed)
  | op :: rest =>
      match smtp performed op with
      | None => session (performed ++ [op]) rest
      | Some e => (Some e, performed ++ [op])
      end
  end.

(** The handler of [except Exception]: its [print], then [return False]. *)
Definition failed (e : exn) (ops : list smtp_op) (printed : list print_call)
    : result bool * list smtp_op * list print_call :=
  match console printed (PrintFailed e) with
  | None => (Returns false, ops, printed ++ [PrintFailed e])
  | Some e' => (Raises e', ops, printed ++ [PrintFailed e])
  end.

(** [send_email]: the value returned or the exception that leaves it, the
    mail operations attempted and the console after it.  The port is read
    and the message is built before the [try] block;
    [MIMEText(html_content, 'html')] raises [UnicodeEncodeError] on a text
    with a surrogate. *)
Definition send_email (printed : list print_call) (recipient : option str)
    (subject html_content : str)
    : result bool * list smtp_op * list print_call :=
  let smtp_server := getenv_or env "SMTP_SERVER" (py "smtp.gmail.com") in
  match int_of_str (getenv_or env "SMTP_PORT" (py "587")) with
  | Raises e => (Raises e, [], printed)
  | Returns smtp_port =>
      let smtp_username := getenv env "SMTP_USERNAME" in
      let smtp_password := getenv env "SMTP_PASSWORD" in
      let sender_email := getenv_default env "SENDER_EMAIL" smtp_username in
      if negb (truthy smtp_username && truthy smtp_password
               && truthy sender_email && truthy recipient)
      then (Returns false, [], printed)
      else if has_surrogate html_content
      then (Raises ValueError, [], printed)
      else
        let msg := {| msg_subject := subject;
                      msg_from := default [] sender_email;
                      msg_to := default [] recipient;
                      msg_html := html_content |} in
        match session [] (mail_plan smtp_server smtp_port
                            (default [] smtp_username)
                            (default [] smtp_password) msg) with
        | (Some e, ops) => failed e ops printed
        | (None, ops) =>
            match console printed (PrintSent (default [] recipient)) with
            | None =>
                (Returns true, ops,
                 printed ++ [PrintSent (default [] recipient)])
            | Some e =>
                failed e ops (printed ++ [PrintSent (default [] recipient)])
            end
        end
  end.
End Delivery.

Section Pipeline.
Variable env : gmap string str.
Variable praw_new : str → str → str → str → Z → praw_listing.
Variable requests_get : str → str → Z → option str → http_outcome.
Variable construct : str → option exn.
Variable console : list print_call → print_call → option exn.
Variable create : list str → str → result completion.
Variable now : datetime.
Variable time_ : nat → float.
Variable now_subject : datetime.
Variable smtp : list smtp_op → smtp_op → option exn.

(** [main], with the console and the client's construction. *)
Definition main : main_run :=
  if negb (fst (validate_env_variables env)) then
    {| run_forums := []; run_prompts := []; run_mail := [];
       run_end := Completed |}
  else
    let recipient_email := getenv env "RECIPIENT_EMAIL" in
    match collect_posts env praw_new requests_get subreddits [] [] with
    | (Propagates e, forums) =>
        {| run_forums := forums; run_prompts := []; run_mail := [];
           run_end := Escapes e |}
    | (Untyped, forums) =>
        {| run_forums := forums; run_prompts := []; run_mail := [];
           run_end := OutsideTypes |}
    | (Fetched [], forums) =>
        {| run_forums := forums; run_prompts := []; run_mail := [];
           run_end := Completed |}
    | (Fetched all_posts, forums) =>
        match filter_posts_with_gemini construct console create
                main_filter_criteria env [] all_posts with
        | (st, Raises e) =>
            {| run_forums := forums; run_prompts := cs_sent st;
               run_mail := []; run_end := Escapes e |}
        | (st, Returns []) =>
            {| run_forums := forums; run_prompts := cs_sent st;
               run_mail := []; run_end := Completed |}
        | (st, Returns filtered_post_tuples) =>
            match build_html_report now time_ filtered_post_tuples with
            | Raises e =>
                {| run_forums := forums; run_prompts := cs_sent st;
                   run_mail := []; run_end := Escapes e |}
            | Returns html_report =>
                if truthy recipient_email then
                  let subject :=
                    py "Reddit Idea Filter Report - "
                    ++ strftime_date now_subject in
                  match send_email env smtp console (cs_printed st)
                          recipient_email subject html_report with
                  | (Returns true, ops, printed) =>
                      {| run_forums := forums; run_prompts := cs_sent st;
                         run_mail := ops;
                         run_end :=
                           match console printed
                                   (PrintReportSent
                                      (default [] recipient_email)) with
                           | None => Completed
                           | Some e => Escapes e
                           end |}
                  | (Returns false, ops, _) =>
                      {| run_forums := forums; run_prompts := cs_sent st;
                         run_mail := ops; run_end := Completed |}
                  | (Raises e, ops, _) =>
                      {| run_forums := forums; run_prompts := cs_sent st;
                         run_mail := ops; run_end := Escapes e |}
                  end
                else
                  {| run_forums := forums; run_prompts := cs_sent st;
                     run_mail := []; run_end := Completed |}
            end
        end
    end.
End Pipeline.

End IO.

(** A console that writes ASCII only: on it a [print] raises
    [UnicodeEncodeError] (a [ValueError]) when its text holds another code
    point.  The texts of lines 251 and 253 start with a check mark and a
    cross. *)
Definition is_ascii (s : str) : bool := forallb (λ c, (c <? 128)%N) s.

Definition console_ascii : list print_call → print_call → option exn :=
  λ _ call,
    let writable :=
      match call with
      | PrintKey first5 last4 => is_ascii first5 && is_ascii last4
      | PrintAccepted _ | PrintRejected _ => false
      | PrintError title_ _ => is_ascii title_
      | PrintSent recipient | PrintReportSent recipient => is_ascii recipient
      | PrintFailed _ => true
      end in
    if writable then None else Some ValueError.

(** A post whose title holds U+1F3E0. *)
Definition emoji_post : Post :=
  {| title := py "Any tool for " ++ [127968%N] ++ py " listings?";
     author := py "agent_k"; score := 5;
     url := py "https://www.reddit.com/r/PropTech/comments/1klmno/listings/";
     created_utc := 1700001800%float; num_comments := 1;
     selftext := None; subreddit := py "PropTech";
     permalink := py "/r/PropTech/comments/1klmno/listings/" |}.

(** A client constructor that succeeds, and one that raises. *)
Definition construct_ok : str → option exn := λ _, None.

Definition construct_fails : str → option exn := λ _, Some OtherError.

(** ** Properties of the string operations *)

Lemma split_nl_1_no_nl (s : str) :
  LF ∉ s → split_nl_1 s = [s].
Proof.
  induction s as [|c s IH]; intros Hs; [done|].
  apply not_elem_of_cons in Hs as [Hc Hs]. simpl.
  destruct (N.eqb_spec c 10) as [->|_]; [done|].
  by rewrite IH.
Qed.

Lemma split_nl_1_app (first second : str) :
  LF ∉ first → split_nl_1 (first ++ nl ++ second) = [first; second].
Proof.
  induction first as [|c s IH]; intros Hs; [done|].
  apply not_elem_of_cons in Hs as [Hc Hs].
  change ((c :: s) ++ nl ++ second) with (c :: (s ++ nl ++ second)).
  cbn [split_nl_1].
  destruct (N.eqb_spec c 10) as [->|_]; [done|].
  by rewrite IH.
Qed.

(** [split_nl_1] yields one segment, or the two sides of the first line
    feed. *)
Lemma split_nl_1_cases (s : str) :
  ((LF ∉ s) ∧ split_nl_1 s = [s])
  ∨ (∃ first second,
       s = first ++ nl ++ second ∧ (LF ∉ first)
       ∧ split_nl_1 s = [first; second]).
Proof.
  induction s as [|c s IH].
  - left. split; [apply not_elem_of_nil | done].
  - simpl. destruct (N.eqb_spec c 10) as [->|Hc].
    + right. exists [], s. split_and!; [done | apply not_elem_of_nil | done].
    + destruct IH as [[Hs ->] | (first & second & -> & Hf & ->)].
      * left. split; [|done]. by apply not_elem_of_cons.
      * right. exists (c :: first), second.
        split_and!; [done | by apply not_elem_of_cons | done].
Qed.

Lemma split_nl_1_inv (s first second : str) :
  s = first ++ nl ++ second → LF ∉ first → split_nl_1 s = [first; second].
Proof. intros -> ?. by apply split_nl_1_app. Qed.

(** ** The classifier *)

Lemma parse_response_eq (response : str) :
  parse_response response
  = Returns match split_nl_1 response with
            | [first; second] =>
                if bool_decide (upper (strip first) = py "YES")
                then Some (strip second) else None
            | _ => None
            end.
Proof.
  unfold parse_response.
  destruct (split_nl_1_cases response)
    as [[_ ->] | (first & second & _ & _ & ->)]; simpl.
  - by rewrite andb_false_r.
  - by destruct (bool_decide _).
Qed.

Lemma verdict_text (raw : str) (more : completion) :
  verdict (Returns (Some raw :: more))
  = match split_nl_1 (strip raw) with
    | [first; second] =>
        if bool_decide (upper (strip first) = py "YES")
        then Some (strip second) else None
    | _ => None
    end.
Proof.
  unfold verdict, try_classify, response_text. simpl.
  by rewrite parse_response_eq.
Qed.

(** Acceptance, declaratively: the stripped response has a line feed, the
    text before the first one reads YES once stripped and upper-cased, and
    the reason is the stripped remainder. *)
Lemma verdict_Some_iff (raw : str) (more : completion) (reason : str) :
  verdict (Returns (Some raw :: more)) = Some reason
  ↔ ∃ first second,
      strip raw = first ++ nl ++ second ∧ (LF ∉ first)
      ∧ upper (strip first) = py "YES" ∧ reason = strip second.
Proof.
  rewrite verdict_text. split.
  - destruct (split_nl_1_cases (strip raw))
      as [[_ ->] | (first & second & Heq & Hnl & ->)]; [done|].
    case_bool_decide as Hyes; [|done].
    intros [= <-]. by exists first, second.
  - intros (first & second & Heq & Hnl & Hyes & ->).
    rewrite (split_nl_1_inv _ _ _ Heq Hnl).
    by rewrite bool_decide_true.
Qed.

Lemma verdict_failure (outcome : result completion) (e : exn) :
  try_classify outcome = Raises e → verdict outcome = None.
Proof. unfold verdict. by intros ->. Qed.

Section ClassifierProps.
Variable create : list str → str → result completion.
Variable filter_criteria : str.

Let prompt := build_prompt filter_criteria.
Let loop := classify_loop create filter_criteria.
Let accepted := accepted_from create filter_criteria.

(** The loop appends the accepted pairs in order and sends one prompt
    per post. *)
Lemma classify_loop_spec (posts : list Post) (acc : list (Post * str))
    (sent : list str) :
  loop posts (acc, sent) = (acc ++ accepted sent posts, sent ++ map prompt posts).
Proof.
  subst loop accepted prompt. unfold classify_loop.
  revert acc sent.
  induction posts as [|post posts IH]; intros acc sent; simpl.
  - by rewrite !app_nil_r.
  - destruct (verdict _) as [reason|]; rewrite IH.
    + by rewrite <- !app_assoc.
    + by rewrite <- !app_assoc.
Qed.

Lemma accepted_sublist (sent : list str) (posts : list Post) :
  sublist (map fst (accepted sent posts)) posts.
Proof.
  subst accepted. revert sent.
  induction posts as [|post posts IH]; intros sent; simpl.
  - constructor.
  - destruct (verdict _); simpl.
    + apply sublist_skip, IH.
    + apply sublist_cons, IH.
Qed.


Lemma filter_run_with_key (env : gmap string str) (posts : list Post) :
  truthy (getenv env "OPENROUTER_KEY") = true →
  filter_posts_with_gemini_run create filter_criteria env posts
  = (accepted [] posts, map prompt posts).
Proof.
  intros Hkey. unfold filter_posts_with_gemini_run. rewrite Hkey.
  apply classify_loop_spec.
Qed.

Lemma filter_run_without_key (env : gmap string str) (posts : list Post) :
  truthy (getenv env "OPENROUTER_KEY") = false →
  filter_posts_with_gemini_run create filter_criteria env posts = ([], []).
Proof.
  intros Hkey. unfold filter_posts_with_gemini_run. by rewrite Hkey.
Qed.
End ClassifierProps.

(** Two services that give the same verdict on every call accept the same
    pairs. *)
Lemma accepted_from_ext (create1 create2 : list str → str → result completion)
    (criteria : str) (sent : list str) (posts : list Post) :
  (∀ s p, verdict (create1 s p) = verdict (create2 s p)) →
  accepted_from create1 criteria sent posts
  = accepted_from create2 criteria sent posts.
Proof.
  intros Hsame. revert sent.
  induction posts as [|post posts IH]; intros sent; simpl; [done|].
  by rewrite Hsame, IH.
Qed.




(** ** The classifier with its console *)

Section ConsoleClassifierProps.
Variable construct : str → option exn.
Variable console : list print_call → print_call → option exn.
Variable create : list str → str → result completion.
Variable filter_criteria : str.

Let prompt := build_prompt filter_criteria.
Let post_run := IO.classify_post console create filter_criteria.
Let loop := IO.classify_loop console create filter_criteria.

(** What one iteration does to the state: nothing is sent when the print
    of the key raises; otherwise the post's prompt is sent and the post is
    appended exactly when its call ends in an acceptance. *)
Lemma io_classify_post_state (debug : bool) (key : str) (st : classify_state)
    (post : Post) :
  let st1 := fst (post_run debug key st post) in
  (cs_filtered st1 = cs_filtered st ∧ cs_sent st1 = cs_sent st
   ∧ debug = true
   ∧ is_Some (console (cs_printed st)
                (PrintKey (take 5 key) (drop (length key - 4) key))))
  ∨ (cs_sent st1 = cs_sent st ++ [prompt post]
     ∧ cs_filtered st1
       = cs_filtered st
         ++ match verdict (create (cs_sent st) (prompt post)) with
            | Some reason => [(post, reason)]
            | None => []
            end).
Proof.
  subst post_run prompt. unfold IO.classify_post, IO.try_block, IO.emit, verdict.
  destruct debug; cbn [fst snd].
  - destruct (console (cs_printed st) (PrintKey _ _)) as [e|] eqn:Hkey.
    + left. cbn [fst cs_filtered cs_sent]. by split_and!.
    + right. destruct (try_classify _) as [[reason|]|e];
        cbn [fst snd cs_filtered cs_sent cs_printed];
        repeat (match goal with
                | |- context [console ?h ?c] => destruct (console h c)
                end; cbn [fst snd cs_filtered cs_sent cs_printed]);
        by rewrite ?app_nil_r.
  - right. destruct (try_classify _) as [[reason|]|e];
        cbn [fst snd cs_filtered cs_sent cs_printed];
        repeat (match goal with
                | |- context [console ?h ?c] => destruct (console h c)
                end; cbn [fst snd cs_filtered cs_sent cs_printed]);
        by rewrite ?app_nil_r.
Qed.

(** An iteration lets an exception out only from the handler's print. *)
Lemma io_classify_post_raises (debug : bool) (key : str) (st : classify_state)
    (post : Post) (e' : exn) :
  snd (post_run debug key st post) = Some e' →
  ∃ printed e, console printed (PrintError (title post) e) = Some e'.
Proof.
  subst post_run. unfold IO.classify_post.
  destruct (IO.try_block _ _ _ _ _ _ _) as [st1 [e|]]; [|done].
  unfold IO.emit. cbn [snd]. intros He. by eexists _, _.
Qed.

(** With a handler whose print goes through, no iteration lets an
    exception out. *)
Lemma io_classify_post_returns (debug : bool) (key : str) (st : classify_state)
    (post : Post) :
  (∀ printed e, console printed (PrintError (title post) e) = None) →
  snd (post_run debug key st post) = None.
Proof.
  intros Hhandler.
  destruct (snd (post_run debug key st post)) as [e'|] eqn:He'; [|done].
  apply io_classify_post_raises in He' as (printed & e & He).
  by rewrite Hhandler in He.
Qed.

(** The loop, whatever the console does: the pairs appended are posts of
    the input in input order, each appended on an acceptance of its own
    call, and the prompts sent are prompts of the input in input order. *)
Lemma io_classify_loop_state (posts : list Post) (key : str) (i : nat)
    (st : classify_state) (rest : list Post) :
  let st' := fst (loop posts key i st rest) in
  ∃ added more,
    cs_filtered st' = cs_filtered st ++ added
    ∧ cs_sent st' = cs_sent st ++ more
    ∧ sublist (map fst added) rest
    ∧ sublist more (map prompt rest)
    ∧ (∀ p, (∀ sent, verdict (create sent (prompt p)) = None) →
            p ∉ map fst added).
Proof.
  subst loop. revert i st.
  induction rest as [|post rest IH]; intros i st; cbn [IO.classify_loop].
  - exists [], []. rewrite !app_nil_r. split_and!; try done.
    intros p _. apply not_elem_of_nil.
  - pose proof (io_classify_post_state (index_is_zero posts i post) key st post)
      as Hstep.
    subst post_run.
    destruct (IO.classify_post _ _ _ _ _ _ _) as [st1 raised].
    cbn [fst] in Hstep.
    assert (∃ added more,
              cs_filtered st1 = cs_filtered st ++ added
              ∧ cs_sent st1 = cs_sent st ++ more
              ∧ sublist (map fst added) [post]
              ∧ sublist more [prompt post]
              ∧ (∀ p, (∀ sent, verdict (create sent (prompt p)) = None) →
                      p ∉ map fst added)) as (added1 & more1 & Hf & Hs & Hsub & Hsub' & Habs).
    { destruct Hstep as [(Hf & Hs & _) | [Hs Hf]].
      - exists [], []. rewrite !app_nil_r. split_and!; try done.
        + apply sublist_nil_l.
        + apply sublist_nil_l.
        + intros p _. apply not_elem_of_nil.
      - destruct (verdict _) as [reason|] eqn:Hv.
        + exists [(post, reason)], [prompt post]. split_and!; try done.
          intros p Hrej [->|?%elem_of_nil]%elem_of_cons; [|done].
          rewrite Hrej in Hv. discriminate.
        + exists [], [prompt post]. split_and!; try done.
          * apply sublist_nil_l.
          * intros p _. apply not_elem_of_nil. }
    assert (∀ l : list Post, sublist l [post] → sublist l (post :: rest))
      as Hone.
    { intros l Hl. etrans; [exact Hl|]. apply sublist_skip, sublist_nil_l. }
    assert (∀ l : list str, sublist l [prompt post]
                            → sublist l (map prompt (post :: rest)))
      as Hone'.
    { intros l Hl. etrans; [exact Hl|]. apply sublist_skip, sublist_nil_l. }
    destruct raised as [e|]; cbn [fst].
    + exists added1, more1. split_and!; auto.
    + destruct (IH (S i) st1) as (added2 & more2 & Hf2 & Hs2 & Hsub2 & Hsub2' & Habs2).
      exists (added1 ++ added2), (more1 ++ more2).
      rewrite Hf2, Hs2, Hf, Hs, <- !app_assoc. split_and!; try done.
      * rewrite map_app. by apply (sublist_app _ [post]).
      * by apply (sublist_app _ [prompt post]).
      * intros p Hrej. rewrite map_app. apply not_elem_of_app. auto.
Qed.

(** When the prints of the key go through and the loop ends without an
    exception, it has sent one prompt per post and appended what the
    verdicts on these calls accept. *)
Lemma io_classify_loop_exact (posts : list Post) (key : str) (i : nat)
    (st st' : classify_state) (rest : list Post) :
  (∀ printed,
     console printed (PrintKey (take 5 key) (drop (length key - 4) key))
     = None) →
  loop posts key i st rest = (st', None) →
  cs_filtered st'
  = cs_filtered st ++ accepted_from create filter_criteria (cs_sent st) rest
  ∧ cs_sent st' = cs_sent st ++ map prompt rest.
Proof.
  intros Hkey. subst loop. revert i st.
  induction rest as [|post rest IH]; intros i st; cbn [IO.classify_loop].
  - intros [= <-]. by rewrite !app_nil_r.
  - pose proof (io_classify_post_state (index_is_zero posts i post) key st post)
      as Hstep.
    subst post_run.
    destruct (IO.classify_post _ _ _ _ _ _ _) as [st1 [e|]]; [done|].
    cbn [fst] in Hstep. intros [Hf Hs]%IH.
    destruct Hstep as [(_ & _ & _ & Hraised) | [Hs1 Hf1]].
    { rewrite Hkey in Hraised. by destruct Hraised. }
    rewrite Hf, Hs, Hf1, Hs1. cbn [accepted_from map]. fold (prompt post).
    rewrite <- !app_assoc. by destruct (verdict _).
Qed.

(** With a handler whose print goes through, the loop ends without an
    exception. *)
Lemma io_classify_loop_returns (posts : list Post) (key : str) (i : nat)
    (st : classify_state) (rest : list Post) :
  (∀ printed p e, p ∈ rest → console printed (PrintError (title p) e) = None) →
  snd (loop posts key i st rest) = None.
Proof.
  subst loop. revert i st.
  induction rest as [|post rest IH]; intros i st Hhandler;
    cbn [IO.classify_loop]; [done|].
  pose proof (io_classify_post_returns (index_is_zero posts i post) key st post
                (λ printed e,
                   Hhandler printed post e (list_elem_of_here post rest)))
    as Hstep.
  subst post_run.
  destruct (IO.classify_post _ _ _ _ _ _ _) as [st1 raised].
  cbn [snd] in Hstep. subst raised. apply IH.
  intros printed p e Hp. apply Hhandler. by apply list_elem_of_further.
Qed.

(** The loop over [l1 ++ l2] is the loop over [l1], then, unless an
    exception ended it, the loop over [l2]. *)
Lemma io_classify_loop_app (posts : list Post) (key : str) (i : nat)
    (st : classify_state) (l1 l2 : list Post) :
  loop posts key i st (l1 ++ l2)
  = match loop posts key i st l1 with
    | (st1, None) => loop posts key (i + length l1) st1 l2
    | (st1, Some e) => (st1, Some e)
    end.
Proof.
  subst loop. revert i st.
  induction l1 as [|post l1 IH]; intros i st; cbn [IO.classify_loop app length].
  - by rewrite Nat.add_0_r.
  - destruct (IO.classify_post _ _ _ _ _ _ _) as [st1 [e|]]; [done|].
    rewrite IH. by rewrite Nat.add_succ_r.
Qed.

(** A failing call whose handler cannot print ends the loop there: the
    posts after it get no call. *)
Lemma io_classify_loop_aborts (posts : list Post) (key : str) (i : nat)
    (st : classify_state) (post : Post) (rest : list Post) (e e' : exn) :
  (∀ printed,
     console printed (PrintKey (take 5 key) (drop (length key - 4) key))
     = None) →
  try_classify (create (cs_sent st) (prompt post)) = Raises e →
  (∀ printed, console printed (PrintError (title post) e) = Some e') →
  ∃ st', loop posts key i st (post :: rest) = (st', Some e')
         ∧ cs_filtered st' = cs_filtered st
         ∧ cs_sent st' = cs_sent st ++ [prompt post].
Proof.
  intros Hkey Hfail Hprint. subst loop prompt.
  cbn [IO.classify_loop]. unfold IO.classify_post, IO.try_block, IO.emit.
  destruct (index_is_zero posts i post).
  - rewrite Hkey. cbn [cs_printed cs_filtered cs_sent].
    rewrite Hfail, Hprint. by eexists.
  - rewrite Hfail. cbn [cs_printed cs_filtered cs_sent].
    rewrite Hprint. by eexists.
Qed.
End ConsoleClassifierProps.

(** Whenever the run with its console returns and the print of the key
    goes through, it returns what the classifier computes and has sent one
    prompt per post. *)
Lemma io_filter_agrees (construct : str → option exn)
    (console : list print_call → print_call → option exn)
    (create : list str → str → result completion) (criteria : str)
    (env : gmap string str) (printed : list print_call) (posts : list Post)
    (out : list (Post * str)) :
  let key := default [] (getenv env "OPENROUTER_KEY") in
  let run := IO.filter_posts_with_gemini construct console create criteria env
               printed posts in
  (∀ printed',
     console printed' (PrintKey (take 5 key) (drop (length key - 4) key))
     = None) →
  snd run = Returns out →
  (out, cs_sent (fst run)) = filter_posts_with_gemini_run create criteria env posts.
Proof.
  intros key run Hkey. subst run. unfold IO.filter_posts_with_gemini.
  destruct (truthy (getenv env "OPENROUTER_KEY")) eqn:Htruthy.
  - rewrite filter_run_with_key by done.
    destruct (construct _); [done|]. fold key.
    destruct (IO.classify_loop _ _ _ _ _ _ _ _) as [st [e|]] eqn:Hloop; [done|].
    cbn [fst snd]. intros [= <-].
    destruct (io_classify_loop_exact console create criteria posts key 0
                   _ st posts Hkey Hloop) as [Hf Hs].
    cbn [cs_filtered cs_sent app] in Hf, Hs. by rewrite Hf, Hs.
  - rewrite filter_run_without_key by done. cbn [fst snd]. by intros [= <-].
Qed.

(** The run returns when the client is built and the handler's print goes
    through for every post. *)
Lemma io_filter_returns (construct : str → option exn)
    (console : list print_call → print_call → option exn)
    (create : list str → str → result completion) (criteria : str)
    (env : gmap string str) (printed : list print_call) (posts : list Post) :
  construct (default [] (getenv env "OPENROUTER_KEY")) = None →
  (∀ printed' p e, p ∈ posts →
                   console printed' (PrintError (title p) e) = None) →
  ∃ out, snd (IO.filter_posts_with_gemini construct console create criteria
                env printed posts) = Returns out.
Proof.
  intros Hclient Hhandler. unfold IO.filter_posts_with_gemini.
  destruct (truthy _); [|by eexists].
  rewrite Hclient.
  pose proof (io_classify_loop_returns console create criteria posts
                (default [] (getenv env "OPENROUTER_KEY")) 0
                {| cs_filtered := []; cs_sent := []; cs_printed := printed |}
                posts Hhandler) as Hloop.
  destruct (IO.classify_loop _ _ _ _ _ _ _ _) as [st raised].
  cbn [snd] in Hloop. subst raised. by eexists.
Qed.

(** Whatever the console and the constructor do, the pairs collected are
    posts of the input in input order, and so are the prompts sent. *)
Lemma io_filter_state (construct : str → option exn)
    (console : list print_call → print_call → option exn)
    (create : list str → str → result completion) (criteria : str)
    (env : gmap string str) (printed : list print_call) (posts : list Post) :
  let run := IO.filter_posts_with_gemini construct console create criteria env
               printed posts in
  sublist (map fst (cs_filtered (fst run))) posts
  ∧ sublist (cs_sent (fst run)) (map (build_prompt criteria) posts)
  ∧ (∀ p, (∀ sent, verdict (create sent (build_prompt criteria p)) = None) →
          p ∉ map fst (cs_filtered (fst run)))
  ∧ (∀ out, snd run = Returns out → out = cs_filtered (fst run)).
Proof.
  intros run. subst run. unfold IO.filter_posts_with_gemini.
  assert (∀ posts' : list Post,
            sublist (map fst ([] : list (Post * str))) posts'
            ∧ sublist [] (map (build_prompt criteria) posts')
            ∧ (∀ p, (∀ sent, verdict (create sent (build_prompt criteria p)) = None) →
                    p ∉ map fst ([] : list (Post * str)))) as Hstart.
  { intros posts'. split_and!; [apply sublist_nil_l..|].
    intros p _. apply not_elem_of_nil. }
  destruct (truthy _).
  - destruct (construct _).
    { cbn [fst snd cs_filtered cs_sent]. destruct (Hstart posts) as (? & ? & ?).
      by split_and!. }
    pose proof (io_classify_loop_state console create criteria posts
                  (default [] (getenv env "OPENROUTER_KEY")) 0
                  {| cs_filtered := []; cs_sent := []; cs_printed := printed |}
                  posts) as Hloop.
    destruct (IO.classify_loop _ _ _ _ _ _ _ _) as [st raised].
    cbn [fst cs_filtered cs_sent app] in Hloop.
    destruct Hloop as (added & more & Hf & Hs & ? & ? & ?).
    destruct raised; cbn [fst snd]; rewrite Hf, Hs; split_and!; try done.
    by intros out [= <-].
  - cbn [fst snd cs_filtered cs_sent]. destruct (Hstart posts) as (? & ? & ?).
    split_and!; try done. by intros out [= <-].
Qed.

(** A failing call whose handler cannot print the title ends the run: the
    exception of the print leaves the function, and the posts after the
    failing one get no call. *)
Lemma io_filter_aborts (construct : str → option exn)
    (console : list print_call → print_call → option exn)
    (create : list str → str → result completion) (criteria : str)
    (env : gmap string str) (printed : list print_call) (posts : list Post)
    (i : nat) (p : Post) (e e' : exn) :
  let key := default [] (getenv env "OPENROUTER_KEY") in
  let run := IO.filter_posts_with_gemini construct console create criteria env
               printed posts in
  truthy (getenv env "OPENROUTER_KEY") = true →
  construct key = None →
  (∀ printed',
     console printed' (PrintKey (take 5 key) (drop (length key - 4) key))
     = None) →
  (∀ printed' q e'', q ∈ take i posts →
                     console printed' (PrintError (title q) e'') = None) →
  posts !! i = Some p →
  try_classify (create (map (build_prompt criteria) (take i posts))
                       (build_prompt criteria p)) = Raises e →
  (∀ printed', console printed' (PrintError (title p) e) = Some e') →
  snd run = Raises e'
  ∧ cs_sent (fst run) = map (build_prompt criteria) (take (S i) posts).
Proof.
  intros key run Htruthy Hclient Hkey Hbefore Hp Hfail Hprint.
  subst run. unfold IO.filter_posts_with_gemini.
  rewrite Htruthy. fold key. rewrite Hclient.
  set (start := {| cs_filtered := []; cs_sent := []; cs_printed := printed |}).
  pose proof (io_classify_loop_app console create criteria posts key 0 start
                (take i posts) (p :: drop (S i) posts)) as Happ.
  rewrite (take_drop_middle posts i p Hp) in Happ.
  rewrite Happ. clear Happ.
  pose proof (io_classify_loop_returns console create criteria posts key 0
                start (take i posts) Hbefore) as Hret.
  destruct (IO.classify_loop console create criteria posts key 0 start
              (take i posts)) as [st1 raised] eqn:Hloop.
  cbn [snd] in Hret. subst raised.
  destruct (io_classify_loop_exact console create criteria posts key 0
              start st1 (take i posts) Hkey Hloop) as [_ Hs].
  subst start. cbn [cs_sent app] in Hs.
  rewrite <- Hs in Hfail.
  destruct (io_classify_loop_aborts console create criteria posts key
              (0 + length (take i posts)) st1 p (drop (S i) posts) e e'
              Hkey Hfail Hprint) as (st' & -> & _ & Hs').
  cbn [fst snd]. split; [done|].
  rewrite Hs', Hs. rewrite (take_S_r posts i p Hp). by rewrite map_app.
Qed.



(** C3, the failing input: the call for a post fails and the handler's own
    print of the title raises, as it does for a title the console cannot
    write.  The exception of the print leaves [filter_posts_with_gemini]:
    the loop is aborted, the posts after the failing one get no call and
    no list is returned.  This holds for a failing call at any position.
    When the handler's print and the print of the key go through, the
    failure is a rejection: every post gets its one call, in order and
    without a second attempt, and the run returns what it returns when the
    failing call is answered "NO" instead. *)
Theorem classifier_failure_is_rejection
    (construct : str → option exn)
    (console : list print_call → print_call → option exn)
    (create : list str → str → result completion) (criteria : str)
    (env : gmap string str) (printed : list print_call) (posts : list Post)
    (i : nat) (p : Post) (e : exn) :
  let key := default [] (getenv env "OPENROUTER_KEY") in
  let prompt := build_prompt criteria in
  let sent := map prompt (take i posts) in
  let rejecting :=
    answer_replaced create sent (prompt p) (Returns [Some (py "NO")]) in
  let run := IO.filter_posts_with_gemini construct console create criteria env
               printed posts in
  let run_rejecting :=
    IO.filter_posts_with_gemini construct console rejecting criteria env
      printed posts in
  IO.filter_posts_with_gemini construct_ok console_ascii failing_first
    sample_criteria sample_env [] [emoji_post; sample_post_2]
  = ({| cs_filtered := [];
        cs_sent := [build_prompt sample_criteria emoji_post];
        cs_printed := [PrintKey (py "sk-or") (py "cdef");
                       PrintError (title emoji_post) OtherError] |},
     Raises ValueError)
  ∧ (truthy (getenv env "OPENROUTER_KEY") = true →
     construct key = None →
     (∀ printed',
        console printed' (PrintKey (take 5 key) (drop (length key - 4) key))
        = None) →
     posts !! i = Some p →
     try_classify (create sent (prompt p)) = Raises e →
     (∀ printed' q e', q ∈ take i posts →
                       console printed' (PrintError (title q) e') = None) →
     (∀ e',
        (∀ printed', console printed' (PrintError (title p) e) = Some e') →
        snd run = Raises e'
        ∧ cs_sent (fst run) = map prompt (take (S i) posts))
     ∧ ((∀ printed' q e', q ∈ posts →
                          console printed' (PrintError (title q) e') = None) →
        snd run = Returns (filter_posts_with_gemini create criteria env posts)
        ∧ snd run_rejecting = snd run
        ∧ cs_sent (fst run) = map prompt posts
        ∧ cs_sent (fst run_rejecting) = map prompt posts
        ∧ verdict (create sent (prompt p)) = None)).
Proof.
  intros key prompt sent rejecting run run_rejecting.
  split; [by vm_compute|]. subst prompt.
  intros Htruthy Hclient Hkey Hp Hfail Hbefore. split.
  - intros e' Hprint.
    by apply (io_filter_aborts construct console create criteria env printed
                posts i p e e').
  - intros Hhandler.
    assert (∀ service,
              snd (IO.filter_posts_with_gemini construct console service
                     criteria env printed posts)
              = Returns (filter_posts_with_gemini service criteria env posts)
              ∧ cs_sent (fst (IO.filter_posts_with_gemini construct console
                                service criteria env printed posts))
                = map (build_prompt criteria) posts) as Hrun.
    { intros service.
      destruct (io_filter_returns construct console service criteria env
                  printed posts Hclient Hhandler) as [out Hret].
      pose proof (io_filter_agrees construct console service criteria env
                    printed posts out Hkey Hret) as Hagree.
      rewrite filter_run_with_key in Hagree by done.
      unfold filter_posts_with_gemini.
      rewrite filter_run_with_key by done. cbn [fst].
      rewrite Hret. split; congruence. }
    destruct (Hrun create) as [Hret Hsent].
    destruct (Hrun rejecting) as [Hret' Hsent'].
    subst run run_rejecting. rewrite Hret, Hret'.
    split_and!; [done | | done | done | by eapply verdict_failure].
    f_equal. unfold filter_posts_with_gemini.
    rewrite !filter_run_with_key by done. cbn [fst].
    apply accepted_from_ext. intros s q.
    subst rejecting. unfold answer_replaced.
    case_bool_decide as Heq; [|done].
    destruct Heq as [-> ->]. by rewrite (verdict_failure _ _ Hfail).
Qed.

(** An instance of [classifier_failure_is_rejection], on a console that
    writes ASCII only.  The first of two calls fails.  With a title the
    console can write, the second post is still classified and accepted;
    with the title of [emoji_post] the run ends after the first call. *)
Lemma classifier_failure_is_rejection_witness :
  let run post :=
    IO.filter_posts_with_gemini construct_ok console_ascii failing_first
      sample_criteria sample_env [] [post; sample_post_2] in
  snd (run sample_post)
  = Returns [(sample_post_2, py "Asks for a grading tool.")]
  ∧ cs_sent (fst (run sample_post))
    = map (build_prompt sample_criteria) [sample_post; sample_post_2]
  ∧ snd (run emoji_post) = Raises ValueError
  ∧ cs_sent (fst (run emoji_post)) = [build_prompt sample_criteria emoji_post].
Proof.
  intros run.
  destruct (classifier_failure_is_rejection construct_ok console_ascii
              failing_first sample_criteria sample_env []
              [sample_post; sample_post_2] 0 sample_post OtherError)
    as (_ & Hgeneral).
  destruct Hgeneral as [_ Hquiet]; [reflexivity.. | by intros ? ? ? ?%elem_of_nil |].
  destruct Hquiet as (Hret & _ & Hsent & _).
  { intros printed' q e' Hq. unfold console_ascii.
    apply elem_of_cons in Hq as [->|Hq]; [reflexivity|].
    apply elem_of_cons in Hq as [->|Hq%elem_of_nil]; [reflexivity|done]. }
  destruct (classifier_failure_is_rejection construct_ok console_ascii
              failing_first sample_criteria sample_env []
              [emoji_post; sample_post_2] 0 emoji_post OtherError)
    as (_ & Habort).
  destruct Habort as [Habort _]; [reflexivity.. | by intros ? ? ? ?%elem_of_nil |].
  destruct (Habort ValueError) as [Hraise Hsent']; [reflexivity|].
  split_and!; [exact Hret | exact Hsent | exact Hraise | exact Hsent'].
Defined.

(** ** The report renderer *)

Arguments post_block : simpl never.
Arguments report_head : simpl never.
Arguments report_tail : simpl never.

Lemma infix_of_refl (s : str) : infix_of s s.
Proof. exists [], []. by rewrite app_nil_r. Qed.

Lemma infix_of_app_l (s a b : str) : infix_of s a → infix_of s (a ++ b).
Proof.
  intros (x & y & ->). exists x, (y ++ b). by rewrite <- !app_assoc.
Qed.

Lemma infix_of_app_r (s a b : str) : infix_of s b → infix_of s (a ++ b).
Proof.
  intros (x & y & ->). exists (a ++ x), y. by rewrite <- !app_assoc.
Qed.

Lemma infix_of_trans (s t u : str) : infix_of s t → infix_of t u → infix_of s u.
Proof.
  intros (x & y & ->) (x' & y' & ->).
  exists (x' ++ x), (y ++ y'). by rewrite <- !app_assoc.
Qed.

(** The interpolated values sit in the block as they are. *)
Lemma post_block_fields (post : Post) (age reason : str) :
  let block := post_block post age reason in
  infix_of (subreddit post) block ∧ infix_of (permalink post) block
  ∧ infix_of (title post) block ∧ infix_of age block
  ∧ infix_of reason block.
Proof.
  unfold post_block, get_full_url. cbv zeta. rewrite <- !app_assoc.
  repeat split;
    repeat first [ apply infix_of_app_l, infix_of_refl
                 | apply infix_of_app_r ].
Qed.

Section RendererProps.
Variable now : datetime.
Variable time_ : nat → float.

Lemma render_posts_blocks (k : nat) (html : str) (results : list (Post * str)) :
  render_posts time_ k html results
  = (blocks ←! blocks_from time_ k results; Returns (html ++ blocks)).
Proof.
  revert k html.
  induction results as [|[post reason] rest IH]; intros k html;
    cbn [render_posts blocks_from bind].
  - by rewrite app_nil_r.
  - destruct (get_age_str (time_ k) post) as [age|e]; cbn [bind]; [|done].
    rewrite IH. destruct (blocks_from time_ (S k) rest); cbn [bind]; [|done].
    by rewrite <- app_assoc.
Qed.

Lemma build_html_report_blocks (results : list (Post * str)) :
  build_html_report now time_ results
  = (blocks ←! blocks_from time_ 0 results;
     Returns (report_head (strftime now) (length results)
              ++ blocks ++ report_tail)).
Proof.
  unfold build_html_report. rewrite render_posts_blocks.
  destruct (blocks_from time_ 0 results); cbn [bind]; [|done].
  by rewrite <- app_assoc.
Qed.

(** The blocks are produced as soon as every age can be computed. *)
Lemma blocks_from_returns (k : nat) (results : list (Post * str)) :
  (∀ i p r, results !! i = Some (p, r) →
            is_Returns (get_age_str (time_ (k + i)) p)) →
  ∃ blocks, blocks_from time_ k results = Returns blocks.
Proof.
  revert k.
  induction results as [|[post reason] rest IH]; intros k Hages;
    cbn [blocks_from].
  - by eexists.
  - pose proof (Hages 0%nat post reason eq_refl) as H0.
    rewrite Nat.add_0_r in H0.
    destruct (get_age_str (time_ k) post) as [age|e]; [|done]. cbn [bind].
    destruct (IH (S k)) as [blocks ->]; [|by eexists].
    intros i p r Hi. specialize (Hages (S i) p r Hi).
    by rewrite Nat.add_succ_r in Hages.
Qed.

(** Every result has its block, with its own age, inside the blocks. *)
Lemma blocks_from_lookup (k : nat) (results : list (Post * str))
    (blocks : str) (i : nat) (p : Post) (r : str) :
  blocks_from time_ k results = Returns blocks →
  results !! i = Some (p, r) →
  ∃ age, get_age_str (time_ (k + i)) p = Returns age
         ∧ infix_of (post_block p age r) blocks.
Proof.
  revert k blocks i.
  induction results as [|[post reason] rest IH]; intros k blocks i Hb Hi.
  - by rewrite lookup_nil in Hi.
  - cbn [blocks_from] in Hb.
    destruct (get_age_str (time_ k) post) as [age|e] eqn:Hage;
      cbn [bind] in Hb; [|done].
    destruct (blocks_from time_ (S k) rest) as [bs|e] eqn:Hbs;
      cbn [bind] in Hb; [|done].
    assert (blocks = post_block post age reason ++ bs) as -> by congruence.
    destruct i as [|i]; simpl in Hi.
    + assert (post = p ∧ reason = r) as [-> ->] by (split; congruence).
      exists age. rewrite Nat.add_0_r.
      split; [done|]. apply infix_of_app_l, infix_of_refl.
    + destruct (IH (S k) bs i Hbs Hi) as (a & Ha & Hin).
      exists a. rewrite Nat.add_succ_r. split; [done|].
      by apply infix_of_app_r.
Qed.

(** The clock is read once per result: later readings are not used. *)
Lemma blocks_from_clock (time' : nat → float) (k : nat)
    (results : list (Post * str)) :
  (∀ i, (i < length results)%nat → time_ (k + i) = time' (k + i)) →
  blocks_from time_ k results = blocks_from time' k results.
Proof.
  revert k.
  induction results as [|[post reason] rest IH]; intros k Hsame;
    cbn [blocks_from]; [done|].
  pose proof (Hsame 0%nat) as H0. rewrite Nat.add_0_r in H0.
  rewrite H0 by (simpl; lia).
  rewrite IH; [done|].
  intros i Hi. replace (S k + i)%nat with (k + S i)%nat by lia.
  apply Hsame. simpl. lia.
Qed.
End RendererProps.

(** The renderer returns a document exactly when every age can be
    computed. *)
Lemma build_html_report_returns (now : datetime) (time_ : nat → float)
    (results : list (Post * str)) :
  (∀ i p r, results !! i = Some (p, r) →
            is_Returns (get_age_str (time_ i) p)) →
  ∃ blocks,
    blocks_from time_ 0 results = Returns blocks
    ∧ build_html_report now time_ results
      = Returns (report_head (strftime now) (length results)
                 ++ blocks ++ report_tail).
Proof.
  intros Hages.
  destruct (blocks_from_returns time_ 0 results Hages) as [blocks Hb].
  exists blocks. split; [done|].
  by rewrite build_html_report_blocks, Hb.
Qed.

(** C7 (as amended): the document is determined by the input results
    together with the clock readings the renderer makes: the formatted
    [datetime.now()] and one [time.time()] reading per result.  Two runs on
    the same input that see the same readings produce the same outcome. *)
Theorem report_determined_by_input_and_clock
    (now now' : datetime) (time_ time' : nat → float)
    (results : list (Post * str)) :
  strftime now = strftime now' →
  (∀ i, (i < length results)%nat → time_ i = time' i) →
  build_html_report now time_ results = build_html_report now' time' results.
Proof.
  intros Hnow Hclock.
  rewrite !build_html_report_blocks, Hnow.
  by rewrite (blocks_from_clock time_ time' 0 results).
Qed.

(** An instance of [report_determined_by_input_and_clock]: two clocks
    that differ only after the one reading a one-result report makes. *)
Lemma report_determined_by_input_and_clock_witness :
  build_html_report sample_now (λ _, 1700000030%float)
    [(sample_post, py "Asks for a tool.")]
  = build_html_report sample_now
      (λ i, match i with O => 1700000030%float | _ => 0%float end)
      [(sample_post, py "Asks for a tool.")].
Proof.
  apply (report_determined_by_input_and_clock sample_now sample_now
           (λ _, 1700000030%float)
           (λ i, match i with O => 1700000030%float | _ => 0%float end)).
  - reflexivity.
  - intros [|i] Hi; [reflexivity | simpl in Hi; lia].
Defined.

(** C7, the claim as worded, fails: on the same input the document changes
    with the time of the call, through the timestamp (even for no results)
    and through the age annotation. *)
Lemma report_depends_on_clock :
  build_html_report sample_now (λ _, 1700000030%float) []
  ≠ build_html_report sample_later (λ _, 1700000030%float) []
  ∧ build_html_report sample_now (λ _, 1700000030%float)
      [(sample_post, py "Asks for a tool.")]
    ≠ build_html_report sample_now (λ _, 1700000090%float)
        [(sample_post, py "Asks for a tool.")].
Proof.
  split; intros H; apply (bool_decide_eq_true_2 _) in H;
    vm_compute in H; discriminate.
Qed.

(** C10: whenever the ages can be computed the renderer returns a
    document, and the document contains every title, forum name and reason
    character for character: each result's block is the literal template
    with the values placed in it unchanged, whatever markup they hold. *)
Theorem report_interpolates_verbatim
    (now : datetime) (time_ : nat → float) (results : list (Post * str)) :
  (∀ i p r, results !! i = Some (p, r) →
            is_Returns (get_age_str (time_ i) p)) →
  ∃ doc,
    build_html_report now time_ results = Returns doc
    ∧ ∀ i p r, results !! i = Some (p, r) →
        infix_of (title p) doc ∧ infix_of (subreddit p) doc
        ∧ infix_of r doc
        ∧ ∃ age, get_age_str (time_ i) p = Returns age
                 ∧ infix_of (block_1 ++ subreddit p ++ block_2
                             ++ get_full_url p ++ block_3 ++ title p
                             ++ block_4 ++ age ++ block_5 ++ r ++ block_6)
                            doc.
Proof.
  intros Hages.
  destruct (build_html_report_returns now time_ results Hages)
    as (blocks & Hb & Hdoc).
  eexists. split; [exact Hdoc|].
  intros i p r Hi.
  destruct (blocks_from_lookup time_ 0 results blocks i p r Hb Hi)
    as (age & Hage & Hin). simpl in Hage.
  assert (infix_of (post_block p age r)
            (report_head (strftime now) (length results)
             ++ blocks ++ report_tail)) as Hblock.
  { by apply infix_of_app_r, infix_of_app_l. }
  destruct (post_block_fields p age r) as (Hs & _ & Ht & _ & Hr).
  split_and!.
  - by eapply infix_of_trans.
  - by eapply infix_of_trans.
  - by eapply infix_of_trans.
  - by exists age.
Qed.

(** An instance of [report_interpolates_verbatim]: a title and a reason
    with markup appear in the document as they are. *)
Lemma report_interpolates_verbatim_witness :
  ∃ doc,
    build_html_report sample_now (λ _, 1700000030%float)
      [(markup_post, markup_reason)] = Returns doc
    ∧ infix_of (py "Need a <b>CRM</b> for tutors & coaches") doc
    ∧ infix_of (py "<script>alert(1)</script> asks for a CRM") doc.
Proof.
  destruct (report_interpolates_verbatim sample_now (λ _, 1700000030%float)
              [(markup_post, markup_reason)]) as (doc & Hdoc & Hin).
  - intros [|i] p r Hi; [|done].
    injection Hi as <- <-. vm_compute. exact I.
  - exists doc. split; [exact Hdoc|].
    destruct (Hin 0%nat markup_post markup_reason eq_refl)
      as (Ht & _ & Hr & _).
    split; [exact Ht | exact Hr].
Defined.

(** ** Re-parsing the report *)

Lemma py_cons (a : ascii) (s : string) : py (String a s) = N_of_ascii a :: py s.
Proof. reflexivity. Qed.

Lemma string_of_uint_no_lt (d : Decimal.uint) :
  LT ∉ py (NilEmpty.string_of_uint d).
Proof.
  induction d; cbn [NilEmpty.string_of_uint];
    [apply not_elem_of_nil | rewrite py_cons; apply not_elem_of_cons;
                             split; [by compute | done] ..].
Qed.

Lemma str_of_Z_no_lt (z : Z) : LT ∉ str_of_Z z.
Proof.
  unfold str_of_Z.
  assert (∀ d, LT ∉ py (NilZero.string_of_uint d)) as Hu.
  { intros d. pose proof (string_of_uint_no_lt d) as Hd.
    destruct d; try exact Hd.
    cbn. apply not_elem_of_cons. split; [by compute | apply not_elem_of_nil]. }
  destruct (Z.to_int z) as [d|d]; cbn [NilZero.string_of_int].
  - apply Hu.
  - rewrite py_cons. apply not_elem_of_cons. split; [by compute | apply Hu].
Qed.

Lemma zfill_no_lt (width : nat) (s : str) : LT ∉ s → LT ∉ zfill width s.
Proof.
  intros Hs. unfold zfill. rewrite elem_of_app.
  intros [Hin | Hin]; [|done].
  by apply elem_of_replicate in Hin as [? _].
Qed.

Lemma not_elem_of_app_2 (c : N) (a b : str) : c ∉ a → c ∉ b → c ∉ a ++ b.
Proof. intros Ha Hb. rewrite elem_of_app. tauto. Qed.

(** Closed goals about closed strings are decided by evaluation. *)
Ltac by_evaluation := apply (bool_decide_unpack _); vm_compute; exact I.

Lemma strftime_no_lt (d : datetime) : LT ∉ strftime d.
Proof.
  unfold strftime, str_of_N.
  repeat first
    [ apply zfill_no_lt, str_of_Z_no_lt
    | by_evaluation
    | apply not_elem_of_app_2 ].
Qed.

Lemma int_age_no_lt (x : float) (unit_ : str) (age : str) :
  LT ∉ unit_ →
  (n ←! int_of_float x; Returns (str_of_Z n ++ unit_)) = Returns age →
  LT ∉ age.
Proof.
  intros Hu. destruct (int_of_float x) as [n|e]; cbn [bind]; [|done].
  intros [= <-]. apply not_elem_of_app_2; [apply str_of_Z_no_lt | done].
Qed.

Lemma get_age_str_no_lt (now : float) (p : Post) (age : str) :
  get_age_str now p = Returns age → LT ∉ age.
Proof.
  unfold get_age_str. cbv zeta.
  repeat destruct (_ <? _)%float;
    apply int_age_no_lt; by_evaluation.
Qed.

Lemma strip_prefix_app (p s : str) : strip_prefix p (p ++ s) = Some s.
Proof.
  induction p as [|a p IH]; [by destruct s|].
  cbn [app strip_prefix]. by rewrite N.eqb_refl.
Qed.

Lemma mismatch_strip_prefix (p s t : str) :
  mismatch p s = true → strip_prefix p (s ++ t) = None.
Proof.
  revert s. induction p as [|a p IH]; intros [|b s]; cbn; try done.
  destruct (a =? b)%N; [apply IH | done].
Qed.

Lemma take_until_app (c : N) (s t : str) :
  c ∉ s → take_until c (s ++ c :: t) = s.
Proof.
  induction s as [|x s IH]; intros Hs; cbn [app take_until].
  - by rewrite N.eqb_refl.
  - apply not_elem_of_cons in Hs as [Hx Hs].
    destruct (N.eqb_spec x c) as [->|_]; [done|]. by rewrite IH.
Qed.

Lemma drop_until_app (c : N) (s t : str) :
  c ∉ s → drop_until c (s ++ c :: t) = c :: t.
Proof.
  induction s as [|x s IH]; intros Hs; cbn [app drop_until].
  - by rewrite N.eqb_refl.
  - apply not_elem_of_cons in Hs as [Hx Hs].
    destruct (N.eqb_spec x c) as [->|_]; [done|]. by rewrite IH.
Qed.

Lemma clean_no_lt (s : str) : LT ∉ s → clean s = true.
Proof.
  induction s as [|c s IH]; intros Hs; [done|].
  apply not_elem_of_cons in Hs as [Hc Hs].
  cbn [clean]. rewrite IH by done. rewrite andb_true_r.
  change link_open with (LT :: link_rest). cbn [mismatch].
  by destruct (N.eqb_spec 60 c).
Qed.

(** Text in which no link starts is skipped by the parser. *)
Lemma parse_posts_clean (s t : str) :
  clean s = true → parse_posts (s ++ t) = parse_posts t.
Proof.
  induction s as [|c s IH]; [done|].
  cbn [clean]. intros [Hm Hs]%andb_true_iff.
  change ((c :: s) ++ t) with (c :: (s ++ t)).
  cbn [parse_posts]. unfold parse_link.
  change (c :: (s ++ t)) with ((c :: s) ++ t).
  rewrite (mismatch_strip_prefix _ _ _ Hm). by apply IH.
Qed.

(** The parser reads back the link the renderer writes. *)
Lemma parse_link_written (link title_ tail_ : str) :
  QUOTE ∉ link → LT ∉ title_ →
  parse_link (link_open ++ link ++ link_mid ++ title_ ++ block_4 ++ tail_)
  = Some (title_, link).
Proof.
  intros Hq Hlt. unfold parse_link.
  rewrite strip_prefix_app.
  assert (∃ m, link_mid = QUOTE :: m) as [m Hm] by (by eexists).
  assert (∃ b, block_4 = 32%N :: LT :: b) as [b Hb] by (by eexists).
  set (text := title_ ++ block_4 ++ tail_).
  assert (drop_until QUOTE (link ++ link_mid ++ text) = link_mid ++ text)
    as ->.
  { rewrite Hm. exact (drop_until_app QUOTE link (m ++ text) Hq). }
  assert (take_until QUOTE (link ++ link_mid ++ text) = link) as ->.
  { rewrite Hm. exact (take_until_app QUOTE link (m ++ text) Hq). }
  rewrite strip_prefix_app. subst text. rewrite Hb.
  assert (take_until LT (title_ ++ (32%N :: LT :: b) ++ tail_)
          = title_ ++ [32%N]) as ->.
  { replace (title_ ++ (32%N :: LT :: b) ++ tail_)
      with ((title_ ++ [32%N]) ++ LT :: (b ++ tail_))
      by (by rewrite <- app_assoc).
    apply take_until_app, not_elem_of_app_2; [done | by_evaluation]. }
  by rewrite removelast_last.
Qed.

(** One block: its title and permalink are read, and nothing else. *)
Lemma parse_posts_block (p : Post) (age r tail_ : str) :
  LT ∉ title p → LT ∉ subreddit p → LT ∉ permalink p →
  QUOTE ∉ permalink p → LT ∉ r → LT ∉ age →
  parse_posts (post_block p age r ++ tail_)
  = (title p, permalink p) :: parse_posts tail_.
Proof.
  intros Ht Hs Hp Hq Hr Ha.
  unfold post_block, get_full_url. rewrite <- !app_assoc.
  rewrite parse_posts_clean by by_evaluation.
  rewrite parse_posts_clean by by apply clean_no_lt.
  rewrite (app_assoc block_2).
  change (block_2 ++ py "https://www.reddit.com")
    with (block_2_lead ++ link_open).
  rewrite <- app_assoc.
  rewrite parse_posts_clean by by_evaluation.
  change block_3 with link_mid.
  pose proof (parse_link_written (permalink p) (title p)
                (age ++ block_5 ++ r ++ block_6 ++ tail_) Hq Ht) as Hlink.
  change link_open with (LT :: link_rest) in Hlink |- *.
  cbn [app] in Hlink |- *. cbn [parse_posts]. rewrite Hlink. f_equal.
  rewrite parse_posts_clean by by_evaluation.
  rewrite parse_posts_clean by by apply clean_no_lt.
  rewrite parse_posts_clean by by_evaluation.
  rewrite parse_posts_clean by by apply clean_no_lt.
  rewrite parse_posts_clean by by_evaluation.
  rewrite parse_posts_clean by by apply clean_no_lt.
  rewrite parse_posts_clean by by_evaluation.
  rewrite parse_posts_clean by by apply clean_no_lt.
  by rewrite parse_posts_clean by by_evaluation.
Qed.

Lemma parse_posts_blocks (time_ : nat → float) (k : nat)
    (results : list (Post * str)) (blocks tail_ : str) :
  blocks_from time_ k results = Returns blocks →
  Forall markup_free results →
  parse_posts (blocks ++ tail_) = titles_permalinks results ++ parse_posts tail_.
Proof.
  revert k blocks.
  induction results as [|[post reason] rest IH]; intros k blocks Hb Hfree.
  - cbn [blocks_from] in Hb. by assert (blocks = []) as -> by congruence.
  - cbn [blocks_from] in Hb.
    destruct (get_age_str (time_ k) post) as [age|e] eqn:Hage;
      cbn [bind] in Hb; [|done].
    destruct (blocks_from time_ (S k) rest) as [bs|e] eqn:Hbs;
      cbn [bind] in Hb; [|done].
    assert (blocks = post_block post age reason ++ bs) as -> by congruence.
    apply Forall_cons in Hfree as [(Ht & Hs & Hp & Hq & Hr) Hfree].
    cbn [fst snd] in *.
    rewrite <- app_assoc, parse_posts_block;
      [|done..|by eapply get_age_str_no_lt].
    cbn [titles_permalinks map fst app]. f_equal.
    by apply (IH (S k)).
Qed.

(** C8 (as amended): for every input whose titles, forum names, permalinks
    and reasons hold no less-than sign and whose permalinks hold no double
    quote, if the ages can be computed then the renderer returns a
    document, and re-parsing its post blocks recovers exactly the titles
    and permalinks of the input posts, in input order. *)
Theorem report_round_trip
    (now : datetime) (time_ : nat → float) (results : list (Post * str)) :
  (∀ i p r, results !! i = Some (p, r) →
            is_Returns (get_age_str (time_ i) p)) →
  Forall markup_free results →
  ∃ doc,
    build_html_report now time_ results = Returns doc
    ∧ parse_posts doc = titles_permalinks results.
Proof.
  intros Hages Hfree.
  destruct (build_html_report_returns now time_ results Hages)
    as (blocks & Hb & Hdoc).
  eexists. split; [exact Hdoc|].
  unfold report_head. rewrite <- !app_assoc.
  rewrite parse_posts_clean by by_evaluation.
  rewrite parse_posts_clean by apply clean_no_lt, strftime_no_lt.
  rewrite parse_posts_clean by by_evaluation.
  rewrite parse_posts_clean by apply clean_no_lt, str_of_Z_no_lt.
  rewrite parse_posts_clean by by_evaluation.
  rewrite (parse_posts_blocks time_ 0 results blocks report_tail Hb Hfree).
  rewrite <- (app_nil_r report_tail).
  rewrite parse_posts_clean by by_evaluation.
  apply app_nil_r.
Qed.

(** An instance of [report_round_trip]: two plain results are read back
    in order. *)
Lemma report_round_trip_witness :
  ∃ doc,
    build_html_report sample_now (λ _, 1700007200%float)
      [(sample_post, py "Asks for a lease tracker.");
       (sample_post_2, py "Asks for a grading tool.")] = Returns doc
    ∧ parse_posts doc
      = [(py "Is there an app for tracking lease renewals?",
          py "/r/PropTech/comments/1abcde/lease/");
         (py "Anyone using AI for grading essays?",
          py "/r/EdTech/comments/1fghij/grading/")].
Proof.
  apply (report_round_trip sample_now (λ _, 1700007200%float)
           [(sample_post, py "Asks for a lease tracker.");
            (sample_post_2, py "Asks for a grading tool.")]).
  - intros [|[|i]] p r Hi; [| |done];
      injection Hi as <- <-; vm_compute; exact I.
  - repeat apply Forall_cons_2; [| |apply Forall_nil_2];
      unfold markup_free; cbn [fst snd]; split_and!; by_evaluation.
Defined.

(** C8, the claim as worded, fails: two inputs with different titles
    render to the same document, so no re-parsing can recover the titles
    of both; the parser above reads the second input's title from it. *)
Lemma report_round_trip_fails :
  build_html_report sample_now (λ _, 1700000030%float) collide_input_1
  = build_html_report sample_now (λ _, 1700000030%float) collide_input_2
  ∧ titles_permalinks collide_input_1 ≠ titles_permalinks collide_input_2
  ∧ (∃ doc,
       build_html_report sample_now (λ _, 1700000030%float) collide_input_1
       = Returns doc
       ∧ parse_posts doc = titles_permalinks collide_input_2
       ∧ parse_posts doc ≠ titles_permalinks collide_input_1).
Proof.
  split_and!.
  - by vm_compute.
  - intros H. apply (bool_decide_eq_true_2 _) in H.
    vm_compute in H. discriminate.
  - eexists. split; [by vm_compute|]. split.
    + by vm_compute.
    + intros H. apply (bool_decide_eq_true_2 _) in H.
      vm_compute in H. discriminate.
Qed.

(** ** Delivery *)



Lemma io_session_all_pass (smtp : list smtp_op → smtp_op → option exn)
    (performed todo : list smtp_op) :
  (∀ i op, todo !! i = Some op → smtp (performed ++ take i todo) op = None) →
  IO.session smtp performed todo = (None, performed ++ todo).
Proof.
  revert performed.
  induction todo as [|op rest IH]; intros performed Hpass; cbn [IO.session].
  - by rewrite app_nil_r.
  - pose proof (Hpass 0%nat op eq_refl) as H0. cbn [take] in H0.
    rewrite app_nil_r in H0. rewrite H0.
    rewrite IH; [by rewrite <- app_assoc|].
    intros i o Hi. rewrite <- app_assoc. apply (Hpass (S i) o Hi).
Qed.

Lemma io_session_first_failure (smtp : list smtp_op → smtp_op → option exn)
    (performed todo : list smtp_op) (i : nat) (op : smtp_op) (e : exn) :
  todo !! i = Some op →
  smtp (performed ++ take i todo) op = Some e →
  (∀ j o, (j < i)%nat → todo !! j = Some o →
          smtp (performed ++ take j todo) o = None) →
  IO.session smtp performed todo = (Some e, performed ++ take (S i) todo).
Proof.
  revert performed i.
  induction todo as [|o rest IH]; intros performed i Hi He Hbefore.
  - by rewrite lookup_nil in Hi.
  - cbn [IO.session]. destruct i as [|i]; cbn in Hi.
    + assert (o = op) as -> by congruence.
      cbn [take] in He. rewrite app_nil_r in He. by rewrite He.
    + pose proof (Hbefore 0%nat o ltac:(lia) eq_refl) as H0.
      cbn [take] in H0. rewrite app_nil_r in H0. rewrite H0.
      rewrite (IH (performed ++ [o]) i Hi).
      * by rewrite <- app_assoc.
      * by rewrite <- app_assoc.
      * intros j o' Hj Ho'. rewrite <- app_assoc.
        apply (Hbefore (S j) o'); [lia | done].
Qed.

(** [send_email] once the port is read, the configuration is complete and
    the body can be encoded: the session, then the prints. *)
Lemma io_send_email_session (env : gmap string str)
    (smtp : list smtp_op → smtp_op → option exn)
    (console : list print_call → print_call → option exn)
    (printed : list print_call) (recipient : option str)
    (subject html_content : str) (port : Z) :
  int_of_str (getenv_or env "SMTP_PORT" (py "587")) = Returns port →
  truthy (getenv env "SMTP_USERNAME") && truthy (getenv env "SMTP_PASSWORD")
  && truthy (getenv_default env "SENDER_EMAIL" (getenv env "SMTP_USERNAME"))
  && truthy recipient = true →
  has_surrogate html_content = false →
  let msg :=
    {| msg_subject := subject;
       msg_from := default (default [] (getenv env "SMTP_USERNAME"))
                           (getenv env "SENDER_EMAIL");
       msg_to := default [] recipient;
       msg_html := html_content |} in
  let plan :=
    mail_plan (getenv_or env "SMTP_SERVER" (py "smtp.gmail.com")) port
      (default [] (getenv env "SMTP_USERNAME"))
      (default [] (getenv env "SMTP_PASSWORD")) msg in
  IO.send_email env smtp console printed recipient subject html_content
  = match IO.session smtp [] plan with
    | (Some e, ops) => IO.failed console e ops printed
    | (None, ops) =>
        match console printed (PrintSent (default [] recipient)) with
        | None =>
            (Returns true, ops, printed ++ [PrintSent (default [] recipient)])
        | Some e =>
            IO.failed console e ops
              (printed ++ [PrintSent (default [] recipient)])
        end
    end.
Proof.
  intros Hport Hcomplete Hbody msg plan. subst plan msg.
  unfold IO.send_email. rewrite Hport, Hcomplete, Hbody. cbn [negb].
  unfold getenv_default, getenv.
  by destruct (env !! "SENDER_EMAIL").
Qed.




(** C6, the failing inputs.  A port setting that is no integer literal
    makes [int] raise [ValueError] before the [try] block, and the
    exception leaves [send_email], whatever the other settings and the
    mail server are.  So does the exception of [MIMEText], raised before
    the [try] block too, when the configuration is complete and the body
    holds a surrogate; and so does the exception of the handler's own
    print.  In every other case the call returns a boolean. *)
Theorem send_email_bad_port_raises
    (env : gmap string str) (smtp : list smtp_op → smtp_op → option exn)
    (console : list print_call → print_call → option exn)
    (printed : list print_call)
    (recipient : option str) (subject html_content : str) :
  let complete :=
    truthy (getenv env "SMTP_USERNAME") && truthy (getenv env "SMTP_PASSWORD")
    && truthy (getenv_default env "SENDER_EMAIL" (getenv env "SMTP_USERNAME"))
    && truthy recipient in
  let outcome :=
    IO.send_email env smtp console printed recipient subject html_content in
  IO.send_email bad_port_env smtp console printed recipient subject html_content
  = (Raises ValueError, [], printed)
  ∧ (∀ e, int_of_str (getenv_or env "SMTP_PORT" (py "587")) = Raises e →
          outcome = (Raises e, [], printed))
  ∧ (∀ port, int_of_str (getenv_or env "SMTP_PORT" (py "587")) = Returns port →
             complete = true → has_surrogate html_content = true →
             outcome = (Raises ValueError, [], printed))
  ∧ (∀ port e e',
       int_of_str (getenv_or env "SMTP_PORT" (py "587")) = Returns port →
       complete = true → has_surrogate html_content = false →
       smtp [] (Connect (getenv_or env "SMTP_SERVER" (py "smtp.gmail.com")) port)
       = Some e →
       console printed (PrintFailed e) = Some e' →
       fst (fst outcome) = Raises e')
  ∧ (∀ port, int_of_str (getenv_or env "SMTP_PORT" (py "587")) = Returns port →
             complete = false ∨ has_surrogate html_content = false →
             (∀ printed' e, console printed' (PrintFailed e) = None) →
             ∃ ok ops printed', outcome = (Returns ok, ops, printed')).
Proof.
  intros complete outcome. split_and!.
  - unfold IO.send_email.
    by replace (int_of_str (getenv_or bad_port_env "SMTP_PORT" (py "587")))
      with (@Raises Z ValueError) by (by vm_compute).
  - intros e He. subst outcome. unfold IO.send_email. by rewrite He.
  - intros port Hport Hc Hbody. subst outcome. unfold IO.send_email.
    rewrite Hport. fold complete. by rewrite Hc, Hbody.
  - intros port e e' Hport Hc Hbody Hconnect Hprint. subst outcome.
    rewrite (io_send_email_session env smtp console printed recipient subject
               html_content port Hport Hc Hbody).
    unfold mail_plan. cbn [IO.session]. rewrite Hconnect.
    unfold IO.failed. by rewrite Hprint.
  - intros port Hport Hcase Hhandler. subst outcome.
    destruct complete eqn:Hc.
    + destruct Hcase as [|Hbody]; [done|].
      rewrite (io_send_email_session env smtp console printed recipient
                 subject html_content port Hport Hc Hbody).
      destruct (IO.session _ _ _) as [[e|] ops]; unfold IO.failed.
      * rewrite Hhandler. by eexists _, _, _.
      * destruct (console printed _); [|by eexists _, _, _].
        rewrite Hhandler. by eexists _, _, _.
    + unfold IO.send_email. rewrite Hport. fold complete. rewrite Hc.
      by eexists _, _, _.
Qed.

(** ** The post source *)


Section PostSourceProps.
Variable env : gmap string str.
Variable praw_new : str → str → str → str → Z → praw_listing.
Variable requests_get : str → str → Z → option str → http_outcome.

End PostSourceProps.




(** C4, the failing inputs.  Without credentials, an anonymous response
    200 whose JSON body is [{}] makes [data["data"]] raise [KeyError],
    which is no [RequestException]: it leaves [fetch_new_posts].  The same
    holds for every exception of the fallback other than a request error.
    And when the authenticated listing fails after one submission and the
    anonymous request times out, the result is not empty. *)
Theorem fetch_malformed_body_propagates
    (env : gmap string str) praw_new requests_get (name : str) (limit : Z) :
  fetch_new_posts ∅ praw_new get_empty_object name limit = Propagates KeyError
  ∧ (∀ e, truthy (getenv env "REDDIT_CLIENT_ID")
          && truthy (getenv env "REDDIT_CLIENT_SECRET") = false →
          anonymous_try env requests_get []
            (getenv_or env "REDDIT_USER_AGENT"
               (py "python:idea-filter:v1.0 (by /u/yourusername)"))
            name limit = Raises e →
          is_request_exception e = false →
          fetch_new_posts env praw_new requests_get name limit = Propagates e)
  ∧ fetch_new_posts reddit_env praw_fails_after_one get_times_out name limit
    = Fetched [sample_post].
Proof.
  split_and!.
  - by vm_compute.
  - intros e Hcred Htry Hreq. unfold fetch_new_posts. rewrite Hcred.
    unfold anonymous_path. cbn [app]. by rewrite Htry, Hreq.
  - by vm_compute.
Qed.

(** ** The configuration check *)

Lemma missing_vars_nil (env : gmap string str) (vars : list (string * string)) :
  missing_vars env vars = []
  ↔ Forall (λ v, truthy (getenv env (fst v)) = true) vars.
Proof.
  induction vars as [|[var description] rest IH]; cbn [missing_vars].
  - split; [constructor | done].
  - destruct (truthy (getenv env var)) eqn:Hv.
    + rewrite IH. split.
      * by constructor.
      * by intros [_ ?]%Forall_cons.
    + split; [done|]. intros [Hv' _]%Forall_cons. cbn [fst] in Hv'.
      congruence.
Qed.

Lemma missing_vars_length (env : gmap string str)
    (vars : list (string * string)) :
  length (missing_vars env vars)
  = length (filter (λ v, truthy (getenv env (fst v)) = false) vars).
Proof.
  induction vars as [|[var description] rest IH]; cbn [missing_vars]; [done|].
  rewrite filter_cons. cbn [fst].
  destruct (truthy (getenv env var)) eqn:Hv.
  - by rewrite decide_False by done.
  - rewrite decide_True by done. cbn [length]. by rewrite IH.
Qed.

Lemma validate_result (env : gmap string str) :
  fst (validate_env_variables env) = truthy (getenv env "OPENROUTER_KEY").
Proof.
  unfold validate_env_variables. cbn [required_vars missing_vars].
  destruct (truthy (getenv env "OPENROUTER_KEY")); [|done].
  by destruct (missing_vars env optional_vars).
Qed.

(** The check passes exactly when the model key is set to a non-empty
    value; no other variable matters to the value returned.  When the key
    is missing the error names it alone: the optional variables are not
    reported, whatever their state. *)
Theorem validate_depends_on_key_only (env : gmap string str) :
  fst (validate_env_variables env) = truthy (getenv env "OPENROUTER_KEY")
  ∧ (truthy (getenv env "OPENROUTER_KEY") = false →
     snd (validate_env_variables env)
     = [ py "ERROR: The following required environment variables are missing:";
         py "  - OPENROUTER_KEY: Required for Gemini API access via OpenRouter";
         nl ++ py "Make sure you have a proper .env file in your project directory." ]).
Proof.
  unfold validate_env_variables. cbn [required_vars missing_vars].
  destruct (truthy (getenv env "OPENROUTER_KEY")) eqn:Hkey.
  - split; [|done]. by destruct (missing_vars env optional_vars).
  - split; [done|]. intros _. reflexivity.
Qed.

(** An instance of [validate_depends_on_key_only]: with the mail settings
    present but no key, the check fails with the three-line error. *)
Lemma validate_depends_on_key_only_witness :
  validate_env_variables mail_env
  = (false,
     [ py "ERROR: The following required environment variables are missing:";
       py "  - OPENROUTER_KEY: Required for Gemini API access via OpenRouter";
       nl ++ py "Make sure you have a proper .env file in your project directory." ]).
Proof.
  pose proof (validate_depends_on_key_only mail_env) as [Hfst Hsnd].
  specialize (Hsnd eq_refl).
  destruct (validate_env_variables mail_env) as [b out].
  cbn [fst snd] in Hfst, Hsnd. subst. reflexivity.
Defined.

(** The check prints nothing exactly when all ten variables are set to
    non-empty values; with the key set, a warning has one line per
    missing optional variable between its heading and its closing line. *)
Theorem validate_silent_iff_all_set (env : gmap string str) :
  (snd (validate_env_variables env) = []
   ↔ Forall (λ v, truthy (getenv env (fst v)) = true)
            (required_vars ++ optional_vars))
  ∧ (truthy (getenv env "OPENROUTER_KEY") = true →
     snd (validate_env_variables env) ≠ [] →
     length (snd (validate_env_variables env))
     = (2 + length (filter (λ v, truthy (getenv env (fst v)) = false)
                           optional_vars))%nat).
Proof.
  pose proof (missing_vars_nil env optional_vars) as Hopt.
  pose proof (missing_vars_length env optional_vars) as Hlen.
  unfold validate_env_variables.
  rewrite Forall_app, <- Hopt.
  cbn [required_vars missing_vars].
  destruct (truthy (getenv env "OPENROUTER_KEY")) eqn:Hkey.
  - destruct (missing_vars env optional_vars) as [|m ms].
    + split; [|done]. split; [|done]. intros _. split; [|done].
      repeat constructor. exact Hkey.
    + split.
      * split; [done|]. by intros [_ ?].
      * intros _ _. cbn [snd]. rewrite <- Hlen.
        rewrite !length_app, length_map.
        change (length [?x]) with 1%nat. unfold str. lia.
  - split; [|done]. split; [done|].
    intros [[Hk _]%Forall_cons _]. cbn [fst] in Hk. congruence.
Qed.

(** ** More on the classifier *)

Lemma upper_char_cases (c : N) :
  (upper_char c = [c - 32] ∧ 97 ≤ c ≤ 122)%N
  ∨ upper_char c = [83; 83]%N
  ∨ (upper_char c = [83]%N ∧ c = 383%N)
  ∨ upper_char c = [89; 778]%N
  ∨ upper_char c = [83; 84]%N
  ∨ (upper_char c = [c] ∧ ¬ (97 ≤ c ≤ 122)%N ∧ c ≠ 383%N).
Proof.
  unfold upper_char.
  destruct (N.leb_spec 97 c), (N.leb_spec c 122); cbn [andb];
    try (left; split; [done | lia]);
    destruct (N.eqb_spec c 223); try (right; by left);
    destruct (N.eqb_spec c 383); try (right; right; left; by split);
    destruct (N.eqb_spec c 7833); try (right; right; right; by left);
    destruct (N.eqb_spec c 64261), (N.eqb_spec c 64262); cbn [orb];
    try (right; right; right; right; by left);
    (do 5 right; split; [done | split; [lia | done]]).
Qed.

Lemma upper_nil_inv (s : str) : upper s = [] → s = [].
Proof.
  destruct s as [|c s]; [done|]. unfold upper. cbn [flat_map].
  destruct (upper_char_cases c)
    as [[-> _]|[->|[[-> _]|[->|[->|[-> _]]]]]]; done.
Qed.

(** Which texts read YES once upper-cased: three letters, each in either
    case, the last one possibly the long s (U+017F). *)
Lemma upper_YES_iff (s : str) :
  upper s = py "YES"
  ↔ ∃ y e z, s = [y; e; z] ∧ (y = 89 ∨ y = 121)%N ∧ (e = 69 ∨ e = 101)%N
             ∧ (z = 83 ∨ z = 115 ∨ z = 383)%N.
Proof.
  change (py "YES") with [89; 69; 83]%N. split.
  - destruct s as [|y s]; [done|]. unfold upper. cbn [flat_map].
    fold (upper s).
    destruct (upper_char_cases y)
      as [[-> Hy]|[->|[[-> _]|[->|[->|[-> [Hy _]]]]]]];
      cbn [app]; intros Hs; try discriminate.
    all: injection Hs as Hy' Hs; destruct s as [|e s]; [done|].
    all: unfold upper in Hs; cbn [flat_map] in Hs; fold (upper s) in Hs.
    all: destruct (upper_char_cases e)
           as [[He0 He]|[He0|[[He0 _]|[He0|[He0|[He0 [He _]]]]]]];
         rewrite He0 in Hs; cbn [app] in Hs; try discriminate.
    all: injection Hs as He' Hs; destruct s as [|z s]; [done|].
    all: unfold upper in Hs; cbn [flat_map] in Hs; fold (upper s) in Hs.
    all: destruct (upper_char_cases z)
           as [[Hz0 Hz]|[Hz0|[[Hz0 Hz]|[Hz0|[Hz0|[Hz0 [Hz _]]]]]]];
         rewrite Hz0 in Hs; cbn [app] in Hs; try discriminate.
    all: assert (upper s = []) as ->%upper_nil_inv by congruence.
    all: try (injection Hs; intros).
    all: exists y, e, z; split; [done|]; split_and!; lia.
  - intros (y & e & z & -> & Hy & He & Hz).
    destruct Hy as [->| ->], He as [->| ->], Hz as [->|[->| ->]];
      reflexivity.
Qed.

(** The decision is read without regard to letter case: a response is
    accepted exactly when its stripped text has a line feed and the text
    before the first one, stripped, is one of Y/y, E/e, S/s (a long s
    counts as s); the reason is all that follows, stripped. *)
Theorem decision_ignores_letter_case (raw : str) (more : completion)
    (reason : str) :
  verdict (Returns (Some raw :: more)) = Some reason
  ↔ ∃ first second y e z,
      strip raw = first ++ nl ++ second ∧ (LF ∉ first)
      ∧ strip first = [y; e; z]
      ∧ (y = 89 ∨ y = 121)%N ∧ (e = 69 ∨ e = 101)%N
      ∧ (z = 83 ∨ z = 115 ∨ z = 383)%N
      ∧ reason = strip second.
Proof.
  rewrite verdict_Some_iff. split.
  - intros (first & second & Heq & Hnl & Hyes & ->).
    apply upper_YES_iff in Hyes as (y & e & z & Hs & Hy & He & Hz).
    by exists first, second, y, e, z.
  - intros (first & second & y & e & z & Heq & Hnl & Hs & Hy & He & Hz & ->).
    exists first, second. split_and!; [done..| |done].
    apply upper_YES_iff. by exists y, e, z.
Qed.






(** ** More on the renderer *)

Lemma blocks_from_raises (time_ : nat → float) (k : nat)
    (results : list (Post * str)) (i : nat) (p : Post) (r : str) (e : exn) :
  results !! i = Some (p, r) →
  get_age_str (time_ (k + i)) p = Raises e →
  (∀ j q s, (j < i)%nat → results !! j = Some (q, s) →
            is_Returns (get_age_str (time_ (k + j)) q)) →
  blocks_from time_ k results = Raises e.
Proof.
  revert k i.
  induction results as [|[post reason] rest IH]; intros k i Hi He Hbefore.
  - by rewrite lookup_nil in Hi.
  - cbn [blocks_from]. destruct i as [|i]; cbn in Hi.
    + assert (post = p) as -> by congruence.
      rewrite Nat.add_0_r in He. by rewrite He.
    + pose proof (Hbefore 0%nat post reason ltac:(lia) eq_refl) as H0.
      rewrite Nat.add_0_r in H0.
      destruct (get_age_str (time_ k) post) as [age|]; [|done]. cbn [bind].
      rewrite (IH (S k) i Hi).
      * done.
      * by replace (S k + i)%nat with (k + S i)%nat by lia.
      * intros j q s Hj Hq.
        replace (S k + j)%nat with (k + S j)%nat by lia.
        apply (Hbefore (S j) q s); [lia | done].
Qed.

Lemma blocks_from_ages (time_ : nat → float) (k : nat)
    (results : list (Post * str)) (blocks : str) :
  blocks_from time_ k results = Returns blocks →
  ∃ ages,
    length ages = length results
    ∧ (∀ i p r age, results !! i = Some (p, r) → ages !! i = Some age →
                    get_age_str (time_ (k + i)) p = Returns age)
    ∧ blocks
      = concat (zip_with (λ pr age, post_block (fst pr) age (snd pr))
                         results ages).
Proof.
  revert k blocks.
  induction results as [|[post reason] rest IH]; intros k blocks Hb;
    cbn [blocks_from] in Hb.
  - exists []. split_and!; [done | intros i p r age Hi; by rewrite lookup_nil in Hi |].
    cbn. congruence.
  - destruct (get_age_str (time_ k) post) as [age|e] eqn:Hage;
      cbn [bind] in Hb; [|done].
    destruct (blocks_from time_ (S k) rest) as [bs|e] eqn:Hbs;
      cbn [bind] in Hb; [|done].
    destruct (IH (S k) bs Hbs) as (ages & Hlen & Hages & ->).
    exists (age :: ages). split_and!.
    + cbn [length]. by rewrite Hlen.
    + intros [|i] p r a Hi Ha; cbn in Hi, Ha.
      * rewrite Nat.add_0_r. congruence.
      * replace (k + S i)%nat with (S k + i)%nat by lia. by eapply Hages.
    + cbn [zip_with concat fst snd]. congruence.
Qed.

(** The renderer has no handler of its own: it returns a document exactly
    when the age of every result can be computed, and otherwise raises
    the exception of the first result whose age cannot. *)
Theorem report_fails_with_first_bad_age
    (now : datetime) (time_ : nat → float) (results : list (Post * str)) :
  (is_Returns (build_html_report now time_ results)
   ↔ ∀ i p r, results !! i = Some (p, r) →
              is_Returns (get_age_str (time_ i) p))
  ∧ (∀ i p r e,
       results !! i = Some (p, r) →
       get_age_str (time_ i) p = Raises e →
       (∀ j q s, (j < i)%nat → results !! j = Some (q, s) →
                 is_Returns (get_age_str (time_ j) q)) →
       build_html_report now time_ results = Raises e).
Proof.
  split.
  - split.
    + rewrite build_html_report_blocks.
      destruct (blocks_from time_ 0 results) as [blocks|e] eqn:Hb; [|done].
      intros _ i p r Hi.
      destruct (blocks_from_lookup time_ 0 results blocks i p r Hb Hi)
        as (age & Hage & _).
      cbn in Hage. by rewrite Hage.
    + intros Hages.
      destruct (build_html_report_returns now time_ results Hages)
        as (blocks & _ & ->). done.
  - intros i p r e Hi He Hbefore.
    rewrite build_html_report_blocks.
    by rewrite (blocks_from_raises time_ 0 results i p r e Hi He Hbefore).
Qed.

(** The document is the head, stating the number of results, then one
    block per result in input order, each with the age read at its own
    turn, then the tail; for no results it is head and tail, and no clock
    reading is made for an age. *)
Theorem report_structure
    (now : datetime) (time_ : nat → float) (results : list (Post * str))
    (doc : str) :
  build_html_report now time_ results = Returns doc →
  ∃ ages,
    length ages = length results
    ∧ (∀ i p r age, results !! i = Some (p, r) → ages !! i = Some age →
                    get_age_str (time_ i) p = Returns age)
    ∧ doc
      = head_1 ++ strftime now ++ head_2
        ++ str_of_Z (Z.of_nat (length results)) ++ head_3
        ++ concat (zip_with (λ pr age, post_block (fst pr) age (snd pr))
                            results ages)
        ++ report_tail.
Proof.
  rewrite build_html_report_blocks.
  destruct (blocks_from time_ 0 results) as [blocks|e] eqn:Hb;
    cbn [bind]; [|done].
  intros Hdoc.
  destruct (blocks_from_ages time_ 0 results blocks Hb)
    as (ages & Hlen & Hages & ->).
  exists ages. split_and!; [done | exact Hages |].
  unfold report_head in Hdoc. rewrite <- !app_assoc in Hdoc. congruence.
Qed.

(** An instance of [report_structure]: two results, read at two clock
    readings; the document has the count 2 and the two blocks in input
    order, with the ages "1h" and "1m". *)
Lemma report_structure_witness :
  let results := [ (sample_post, py "Asks for a lease tracker.");
                   (sample_post_2, py "Asks for a grading tool.") ] in
  let clock := λ i : nat,
    match i with
    | O => 1700003630%float
    | _ => 1700003690%float
    end in
  ∃ ages,
    ages = [py "1h"; py "1m"]
    ∧ build_html_report sample_now clock results
      = Returns
          (head_1 ++ strftime sample_now ++ head_2 ++ py "2" ++ head_3
           ++ concat (zip_with (λ pr age, post_block (fst pr) age (snd pr))
                               results ages)
           ++ report_tail).
Proof.
  intros results clock.
  destruct (build_html_report sample_now clock results) as [doc|e] eqn:Hdoc;
    [|vm_compute in Hdoc; discriminate].
  destruct (report_structure sample_now clock results doc Hdoc)
    as (ages & Hlen & Hages & ->).
  exists ages.
  destruct ages as [|age0 [|age1 [|age2 ages]]]; try discriminate Hlen.
  pose proof (Hages 0%nat sample_post _ age0 eq_refl eq_refl) as H0.
  pose proof (Hages 1%nat sample_post_2 _ age1 eq_refl eq_refl) as H1.
  vm_compute in H0. vm_compute in H1.
  injection H0 as <-. injection H1 as <-.
  split; reflexivity.
Defined.

(** A creation time that is not a finite number (NaN or an infinity)
    makes [get_age_str] raise [ValueError] or [OverflowError] at every
    clock reading, so a report that has such a post among its results is
    never returned. *)
Theorem nonfinite_creation_time_fails (p : Post) :
  (Prim2SF (created_utc p) = S754_nan
   ∨ ∃ sign, Prim2SF (created_utc p) = S754_infinity sign) →
  (∀ now_, get_age_str now_ p = Raises ValueError
           ∨ get_age_str now_ p = Raises OverflowError)
  ∧ (Prim2SF (created_utc p) = S754_nan →
     ∀ now_, get_age_str now_ p = Raises ValueError)
  ∧ (∀ now time_ results r,
       (p, r) ∈ results →
       ∃ e, build_html_report now time_ results = Raises e).
Proof.
  intros Hbad.
  assert (∀ x, Prim2SF x = S754_nan →
               (x <? 60)%float = false ∧ (x <? 3600)%float = false
               ∧ (x <? 86400)%float = false
               ∧ int_of_float (x / 86400)%float = Raises ValueError)
    as Hnan.
  { intros x Hx. rewrite !ltb_spec, Hx. split_and!; try reflexivity.
    unfold int_of_float. rewrite div_spec, Hx. by vm_compute. }
  assert (∀ now_, Prim2SF (created_utc p) = S754_nan →
                  get_age_str now_ p = Raises ValueError) as Hnan_age.
  { intros now_ Hc. unfold get_age_str. cbv zeta.
    destruct (Hnan (now_ - created_utc p)%float)
      as (-> & -> & -> & ->); [|done].
    rewrite sub_spec, Hc. by destruct (Prim2SF now_). }
  assert (∀ now_, get_age_str now_ p = Raises ValueError
                  ∨ get_age_str now_ p = Raises OverflowError) as Hage.
  { intros now_. destruct Hbad as [Hc | [sign Hc]]; [left; by apply Hnan_age|].
    unfold get_age_str. cbv zeta.
    assert (Prim2SF (now_ - created_utc p)%float = S754_nan
            ∨ ∃ s, Prim2SF (now_ - created_utc p)%float = S754_infinity s)
      as [Hd | [s Hd]].
    { rewrite sub_spec, Hc.
      destruct (Prim2SF now_) as [?|[|]| |? ? ?], sign; cbn;
        first [by left | right; by eexists]. }
    - left. destruct (Hnan _ Hd) as (-> & -> & -> & ->). done.
    - right. destruct s.
      + assert ((now_ - created_utc p <? 60)%float = true) as ->.
        { rewrite ltb_spec, Hd. by vm_compute. }
        unfold int_of_float. by rewrite Hd.
      + assert ((now_ - created_utc p <? 60)%float = false) as ->.
        { rewrite ltb_spec, Hd. by vm_compute. }
        assert ((now_ - created_utc p <? 3600)%float = false) as ->.
        { rewrite ltb_spec, Hd. by vm_compute. }
        assert ((now_ - created_utc p <? 86400)%float = false) as ->.
        { rewrite ltb_spec, Hd. by vm_compute. }
        unfold int_of_float. rewrite div_spec, Hd. by vm_compute. }
  split_and!; [exact Hage | intros Hc now_; by apply Hnan_age |].
  intros now time_ results r [i Hi]%list_elem_of_lookup.
  rewrite build_html_report_blocks.
  destruct (blocks_from time_ 0 results) as [blocks|e] eqn:Hb;
    [|by exists e].
  destruct (blocks_from_lookup time_ 0 results blocks i p r Hb Hi)
    as (age & Ha & _).
  destruct (Hage (time_ (0 + i)%nat)); congruence.
Qed.

(** An instance of [nonfinite_creation_time_fails]: a post whose creation
    time is NaN, after a sound one. *)
Lemma nonfinite_creation_time_fails_witness :
  ∃ e,
    build_html_report sample_now (λ _, 1700000030%float)
      [ (sample_post, py "Asks for a lease tracker.");
        ({| title := py "t"; author := []; score := 0; url := [];
            created_utc := nan; num_comments := 0; selftext := None;
            subreddit := py "s"; permalink := py "/r/s/1/" |}, py "r") ]
    = Raises e.
Proof.
  refine (proj2 (proj2 (nonfinite_creation_time_fails
            {| title := py "t"; author := []; score := 0; url := [];
               created_utc := nan; num_comments := 0; selftext := None;
               subreddit := py "s"; permalink := py "/r/s/1/" |} _))
            sample_now (λ _, 1700000030%float) _ (py "r") _).
  - left. reflexivity.
  - apply list_elem_of_lookup. by exists 1%nat.
Defined.

(** ** More on delivery *)


(** The session with the exception it ends on, against the session as a
    success flag. *)
Lemma io_session_flag (smtp : list smtp_op → smtp_op → option exn)
    (performed todo : list smtp_op) :
  session smtp performed todo
  = (match fst (IO.session smtp performed todo) with
     | None => true
     | Some _ => false
     end,
     snd (IO.session smtp performed todo)).
Proof.
  revert performed.
  induction todo as [|op rest IH]; intros performed;
    cbn [session IO.session]; [done|].
  destruct (smtp performed op); [done|]. apply IH.
Qed.

(** With a body that can be encoded and prints that go through,
    [send_email] with its console returns what [send_email] computes,
    after the same mail operations. *)
Lemma io_send_email_agrees (env : gmap string str)
    (smtp : list smtp_op → smtp_op → option exn)
    (console : list print_call → print_call → option exn)
    (printed : list print_call) (recipient : option str)
    (subject html_content : str) :
  has_surrogate html_content = false →
  (∀ printed' call, console printed' call = None) →
  fst (IO.send_email env smtp console printed recipient subject html_content)
  = send_email env smtp recipient subject html_content.
Proof.
  intros Hbody Hquiet. unfold IO.send_email, send_email, mail_plan.
  destruct (int_of_str _) as [port|e]; [|done].
  destruct (negb _); [done|]. rewrite Hbody.
  rewrite io_session_flag.
  destruct (IO.session _ _ _) as [[e|] ops]; unfold IO.failed;
    by rewrite ?Hquiet.
Qed.

(** With a complete configuration, a readable port and a body that can be
    encoded, [send_email] runs connect, STARTTLS, login, submit and quit
    in this order and stops at the first operation that raises.  When all
    five go through it returns [True], unless the print of the success
    raises: then the handler runs and it returns [False] although the
    message was submitted.  When an operation raises, nothing is attempted
    after it and the call returns [False]; a failing [quit] therefore
    yields [False] although the message was submitted.  (In both cases the
    handler's own print has to go through.)  The sender is
    [SENDER_EMAIL], or the user name when that is unset. *)
Theorem send_email_stops_at_first_failure
    (env : gmap string str) (smtp : list smtp_op → smtp_op → option exn)
    (console : list print_call → print_call → option exn)
    (printed : list print_call)
    (recipient : option str) (subject html_content : str) (port : Z) :
  int_of_str (getenv_or env "SMTP_PORT" (py "587")) = Returns port →
  truthy (getenv env "SMTP_USERNAME") && truthy (getenv env "SMTP_PASSWORD")
  && truthy (getenv_default env "SENDER_EMAIL" (getenv env "SMTP_USERNAME"))
  && truthy recipient = true →
  has_surrogate html_content = false →
  let msg :=
    {| msg_subject := subject;
       msg_from := default (default [] (getenv env "SMTP_USERNAME"))
                           (getenv env "SENDER_EMAIL");
       msg_to := default [] recipient;
       msg_html := html_content |} in
  let plan :=
    mail_plan (getenv_or env "SMTP_SERVER" (py "smtp.gmail.com")) port
      (default [] (getenv env "SMTP_USERNAME"))
      (default [] (getenv env "SMTP_PASSWORD")) msg in
  let success := PrintSent (default [] recipient) in
  let outcome :=
    IO.send_email env smtp console printed recipient subject html_content in
  ((∀ i op, plan !! i = Some op → smtp (take i plan) op = None) →
   (console printed success = None →
    outcome = (Returns true, plan, printed ++ [success]))
   ∧ (∀ e, console printed success = Some e →
           console (printed ++ [success]) (PrintFailed e) = None →
           outcome
           = (Returns false, plan, printed ++ [success; PrintFailed e])))
  ∧ (∀ i op e,
       plan !! i = Some op →
       smtp (take i plan) op = Some e →
       (∀ j o, (j < i)%nat → plan !! j = Some o → smtp (take j plan) o = None) →
       console printed (PrintFailed e) = None →
       outcome = (Returns false, take (S i) plan, printed ++ [PrintFailed e])).
Proof.
  intros Hport Hcomplete Hbody msg plan success outcome.
  subst outcome.
  rewrite (io_send_email_session env smtp console printed recipient subject
             html_content port Hport Hcomplete Hbody).
  fold msg. fold plan. fold success.
  split.
  - intros Hpass.
    rewrite (io_session_all_pass smtp [] plan Hpass). cbn [app]. split.
    + by intros ->.
    + intros e -> Hprint. unfold IO.failed. rewrite Hprint.
      by rewrite <- app_assoc.
  - intros i op e Hi He Hbefore Hprint.
    rewrite (io_session_first_failure smtp [] plan i op e Hi He Hbefore).
    unfold IO.failed. by rewrite Hprint.
Qed.

(** An instance of [send_email_stops_at_first_failure]: only [quit]
    raises; the message has been submitted and the call returns
    [False]. *)
Lemma send_email_stops_at_first_failure_witness :
  IO.send_email mail_env smtp_quit_fails console_ascii [] sample_recipient
    (py "Report") (py "<html></html>")
  = (Returns false,
     [ Connect (py "smtp.gmail.com") 587; StartTLS;
       Login (py "digest@example.org") (py "app-password");
       SendMessage {| msg_subject := py "Report";
                      msg_from := py "digest@example.org";
                      msg_to := py "founder@example.org";
                      msg_html := py "<html></html>" |};
       Quit ],
     [PrintFailed OtherError]).
Proof.
  refine (proj2 (send_email_stops_at_first_failure mail_env smtp_quit_fails
                   console_ascii [] sample_recipient (py "Report")
                   (py "<html></html>") 587 _ _ _) 4%nat Quit OtherError
            _ _ _ _).
  - reflexivity.
  - reflexivity.
  - reflexivity.
  - reflexivity.
  - reflexivity.
  - intros [|[|[|[|j]]]] o Hj Ho; [| | | |lia];
      injection Ho as <-; reflexivity.
  - reflexivity.
Defined.

(** ** More on the post source *)

Lemma post_of_item_of_post (p : Post) :
  post_of_item (item_of_post p) = Returns (Some p).
Proof. by destruct p as [? ? ? ? ? ? [?|] ? ?]. Qed.

Lemma append_items_of_posts (kept posts : list Post) :
  append_items kept (map item_of_post posts) = Returns (Some (kept ++ posts)).
Proof.
  revert kept.
  induction posts as [|p posts IH]; intros kept; cbn [map append_items].
  - by rewrite app_nil_r.
  - rewrite post_of_item_of_post. cbn [bind].
    by rewrite IH, <- app_assoc.
Qed.

Lemma append_items_raises (kept : list Post) (items : list json) (i : nat)
    (item : json) (e : exn) :
  items !! i = Some item →
  post_of_item item = Raises e →
  (∀ j it, (j < i)%nat → items !! j = Some it →
           is_Returns (post_of_item it)) →
  append_items kept items = Raises e.
Proof.
  revert kept i.
  induction items as [|it rest IH]; intros kept i Hi He Hbefore.
  - by rewrite lookup_nil in Hi.
  - cbn [append_items]. destruct i as [|i]; cbn in Hi.
    + assert (it = item) as -> by congruence. by rewrite He.
    + pose proof (Hbefore 0%nat it ltac:(lia) eq_refl) as H0.
      assert (∀ kept', append_items kept' rest = Raises e) as Hrest.
      { intros kept'. apply (IH kept' i Hi He).
        intros j it' Hj Hit'. apply (Hbefore (S j) it'); [lia | done]. }
      destruct (post_of_item it) as [[post|]|]; [| |done]; cbn [bind].
      * apply Hrest.
      * by rewrite Hrest.
Qed.

Section PostSourceMore.
Variable env : gmap string str.
Variable praw_new : str → str → str → str → Z → praw_listing.
Variable requests_get : str → str → Z → option str → http_outcome.
Variable name : str.
Variable limit : Z.

Let user_agent : str :=
  getenv_or env "REDDIT_USER_AGENT"
    (py "python:idea-filter:v1.0 (by /u/yourusername)").
Let url : str := py "https://www.reddit.com/r/" ++ name ++ py "/new.json".
Let proxies : option str :=
  if truthy (getenv env "HTTP_PROXY") then getenv env "HTTP_PROXY" else None.
Let credentials : bool :=
  truthy (getenv env "REDDIT_CLIENT_ID")
  && truthy (getenv env "REDDIT_CLIENT_SECRET").

Lemma fetch_without_credentials :
  credentials = false →
  fetch_new_posts env praw_new requests_get name limit
  = anonymous_path env requests_get [] user_agent name limit.
Proof.
  subst credentials. intros Hc. unfold fetch_new_posts. by rewrite Hc.
Qed.

(** The two paths exclude each other: when the credentials are set and
    the authenticated listing ends without a fault, its posts are the
    result, in listing order, and the anonymous endpoint has no part in
    it; when a credential is unset or empty, the authenticated API has no
    part in the result. *)
Theorem fetch_uses_one_path
    (praw_new' : str → str → str → str → Z → praw_listing)
    (requests_get' : str → str → Z → option str → http_outcome) :
  let listing :=
    praw_new (default [] (getenv env "REDDIT_CLIENT_ID"))
             (default [] (getenv env "REDDIT_CLIENT_SECRET"))
             user_agent name limit in
  (credentials = true → fault listing = None →
     fetch_new_posts env praw_new requests_get name limit
     = Fetched (map post_of_submission (yielded listing))
     ∧ fetch_new_posts env praw_new requests_get' name limit
       = fetch_new_posts env praw_new requests_get name limit)
  ∧ (credentials = false →
     fetch_new_posts env praw_new' requests_get name limit
     = fetch_new_posts env praw_new requests_get name limit).
Proof.
  intros listing. subst credentials. split.
  - intros Hc Hfault. unfold fetch_new_posts. rewrite Hc.
    fold user_agent. fold listing. by rewrite Hfault.
  - intros Hc. unfold fetch_new_posts. by rewrite Hc.
Qed.


(** A well-formed listing is read back field by field: when the response
    is no error status and its body is the listing that carries the
    fields of [posts], the anonymous path appends exactly [posts], in
    listing order, to the posts kept so far. *)
Theorem fetch_reads_listing_back (kept posts : list Post) (status : Z) :
  ¬ (400 ≤ status < 600)%Z →
  requests_get url user_agent limit proxies
  = Response status (Some (listing_of_posts posts)) →
  anonymous_path env requests_get kept user_agent name limit
  = Fetched (kept ++ posts)
  ∧ (credentials = false →
     fetch_new_posts env praw_new requests_get name limit = Fetched posts).
Proof.
  intros Hstatus Hget.
  assert (∀ before,
            anonymous_path env requests_get before user_agent name limit
            = Fetched (before ++ posts)) as Hread.
  { intros before. unfold anonymous_path, anonymous_try.
    fold url. fold proxies. rewrite Hget.
    destruct ((400 <=? status)%Z && (status <? 600)%Z) eqn:Hs.
    { apply andb_true_iff in Hs as [? ?]. lia. }
    unfold listing_of_posts.
    change (subscript (JDict ?m) (py "data"))
      with (Returns (JDict [(py "children", JList (map item_of_post posts))])).
    cbn [bind].
    change (subscript (JDict ?m) (py "children"))
      with (Returns (JList (map item_of_post posts))).
    cbn [bind iterate]. by rewrite append_items_of_posts. }
  split; [apply Hread|].
  intros Hc. rewrite fetch_without_credentials by done. apply Hread.
Qed.
End PostSourceMore.


(** An instance of [fetch_reads_listing_back]: a listing of two posts. *)
Lemma fetch_reads_listing_back_witness :
  fetch_new_posts ∅ praw_fails_after_one
    (λ _ _ _ _,
       Response 200 (Some (listing_of_posts [sample_post; sample_post_2])))
    (py "PropTech") 10%Z
  = Fetched [sample_post; sample_post_2].
Proof.
  refine (proj2 (fetch_reads_listing_back ∅ praw_fails_after_one
                   (λ _ _ _ _,
                      Response 200
                        (Some (listing_of_posts [sample_post; sample_post_2])))
                   (py "PropTech") 10%Z [] [sample_post; sample_post_2]
                   200%Z _ _) _).
  - lia.
  - reflexivity.
  - reflexivity.
Defined.

Lemma subscript_dict (members : list (str * json)) (key : str) :
  subscript (JDict members) key
  = match assoc key members with
    | Some v => Returns v
    | None => Raises KeyError
    end.
Proof. reflexivity. Qed.

(** An entry of the listing must carry eight keys: when one of title,
    author, score, url, created_utc, num_comments, subreddit and permalink
    is missing from its data, building the post raises [KeyError]; only
    selftext may be missing, and then the post's body is the empty
    string. *)
Theorem listing_entry_keys (item : json) (members : list (str * json)) :
  subscript item (py "data") = Returns (JDict members) →
  (∀ key, key ∈ subscripted_keys → assoc key members = None →
          post_of_item item = Raises KeyError)
  ∧ (∀ p, post_of_item item = Returns (Some p) →
          assoc (py "selftext") members = None → selftext p = Some []).
Proof.
  intros Hdata. unfold post_of_item. rewrite Hdata. cbn [bind].
  rewrite !subscript_dict. split.
  - intros key Hkey Hnone.
    repeat match goal with
           | |- context [assoc ?k members] =>
               lazymatch k with
               | py "selftext" => fail
               | _ => destruct (assoc k members) eqn:?; cbn [bind]; try done
               end
           end.
    exfalso. unfold subscripted_keys in Hkey.
    repeat (apply elem_of_cons in Hkey as [-> | Hkey]; [congruence|]).
    by apply elem_of_nil in Hkey.
  - intros p Hp Hnone. rewrite Hnone in Hp. cbn [default] in Hp.
    repeat match type of Hp with
           | context [assoc ?k members] =>
               destruct (assoc k members) as [?|]; cbn [bind] in Hp;
               [|discriminate]
           end.
    repeat match type of Hp with
           | context [match ?v with JNull => _ | _ => _ end] =>
               is_var v; destruct v; try discriminate
           end.
    injection Hp as <-. reflexivity.
Qed.

(** An instance of [listing_entry_keys]: an entry whose data has a title
    only. *)
Lemma listing_entry_keys_witness :
  post_of_item (JDict [ (py "data", JDict [ (py "title", JStr (py "t")) ]) ])
  = Raises KeyError.
Proof.
  refine (proj1 (listing_entry_keys
                   (JDict [ (py "data", JDict [ (py "title", JStr (py "t")) ]) ])
                   [ (py "title", JStr (py "t")) ] _) (py "author") _ _).
  - reflexivity.
  - by_evaluation.
  - reflexivity.
Defined.

(** One bad entry loses the forum: when an entry of the listing cannot be
    turned into a post, the exception of the first such entry ([KeyError]
    or [TypeError]) leaves [fetch_new_posts], and the posts built from the
    entries before it are not returned. *)
Theorem fetch_bad_entry_propagates
    (env : gmap string str) praw_new requests_get (name : str) (limit : Z)
    (status : Z) (data listing children : json) (items : list json)
    (i : nat) (item : json) (e : exn) :
  truthy (getenv env "REDDIT_CLIENT_ID")
  && truthy (getenv env "REDDIT_CLIENT_SECRET") = false →
  requests_get (py "https://www.reddit.com/r/" ++ name ++ py "/new.json")
    (getenv_or env "REDDIT_USER_AGENT"
       (py "python:idea-filter:v1.0 (by /u/yourusername)"))
    limit
    (if truthy (getenv env "HTTP_PROXY") then getenv env "HTTP_PROXY"
     else None)
  = Response status (Some data) →
  ¬ (400 ≤ status < 600)%Z →
  subscript data (py "data") = Returns listing →
  subscript listing (py "children") = Returns children →
  iterate children = Returns items →
  items !! i = Some item →
  post_of_item item = Raises e →
  (∀ j it, (j < i)%nat → items !! j = Some it →
           is_Returns (post_of_item it)) →
  is_request_exception e = false
  ∧ fetch_new_posts env praw_new requests_get name limit = Propagates e.
Proof.
  intros Hc Hget Hstatus Hdata Hchildren Hiter Hi He Hbefore.
  assert (is_request_exception e = false) as Hreq.
  { revert He. unfold post_of_item.
    assert (∀ v k, subscript v k = Raises RequestException → False) as Hsub.
    { intros v k. unfold subscript. destruct v; try done.
      by destruct (assoc k members). }
    repeat match goal with
           | |- context [subscript ?v ?k] =>
               let H := fresh "Hs" in
               destruct (subscript v k) as [?|[]] eqn:H; cbn [bind];
               try (by apply Hsub in H); try (by intros [= <-])
           end. }
  split; [done|].
  unfold fetch_new_posts. rewrite Hc.
  unfold anonymous_path, anonymous_try. rewrite Hget.
  destruct ((400 <=? status)%Z && (status <? 600)%Z) eqn:Hs.
  { apply andb_true_iff in Hs as [? ?]. lia. }
  rewrite Hdata. cbn [bind]. rewrite Hchildren. cbn [bind].
  rewrite Hiter. cbn [bind].
  rewrite (append_items_raises [] items i item e Hi He Hbefore).
  by rewrite Hreq.
Qed.

(** An instance of [fetch_bad_entry_propagates]: a sound entry followed by
    an empty object. *)
Lemma fetch_bad_entry_propagates_witness :
  fetch_new_posts ∅ praw_fails_after_one
    (λ _ _ _ _,
       Response 200
         (Some (JDict [ (py "data",
                         JDict [ (py "children",
                                  JList [sample_item; JDict []]) ]) ])))
    (py "PropTech") 10%Z
  = Propagates KeyError.
Proof.
  refine (proj2 (fetch_bad_entry_propagates ∅ praw_fails_after_one
                   (λ _ _ _ _,
                      Response 200
                        (Some (JDict [ (py "data",
                                        JDict [ (py "children",
                                                 JList [sample_item;
                                                        JDict []]) ]) ])))
                   (py "PropTech") 10%Z 200%Z _ _ _ _ 1%nat (JDict [])
                   KeyError _ _ _ _ _ _ _ _ _)).
  - reflexivity.
  - reflexivity.
  - lia.
  - reflexivity.
  - reflexivity.
  - reflexivity.
  - reflexivity.
  - reflexivity.
  - intros [|j] it Hj Hit; [|lia]. injection Hit as <-. by vm_compute.
Defined.

(** ** The pipeline *)


Section PipelineProps.
Variable env : gmap string str.
Variable praw_new : str → str → str → str → Z → praw_listing.
Variable requests_get : str → str → Z → option str → http_outcome.
Variable create : list str → str → result completion.
Variable now : datetime.
Variable time_ : nat → float.
Variable now_subject : datetime.
Variable smtp : list smtp_op → smtp_op → option exn.

Let fetch (forum : str) : fetched :=
  fetch_new_posts env praw_new requests_get forum 10.
Let collect := collect_posts env praw_new requests_get.
Let run : main_run :=
  main env praw_new requests_get create now time_ now_subject smtp.

Lemma collect_posts_all (posts_of : str → list Post) (forums : list str)
    (all_posts : list Post) (fetched_forums : list str) :
  (∀ forum, forum ∈ forums → fetch forum = Fetched (posts_of forum)) →
  collect forums all_posts fetched_forums
  = (Fetched (all_posts ++ concat (map posts_of forums)),
     fetched_forums ++ forums).
Proof.
  subst fetch collect. revert all_posts fetched_forums.
  induction forums as [|forum rest IH]; intros all_posts fetched_forums Hall;
    cbn [collect_posts map concat].
  - by rewrite !app_nil_r.
  - rewrite (Hall forum) by apply list_elem_of_here.
    rewrite IH; [by rewrite <- !app_assoc|].
    intros f Hf. apply Hall. by apply list_elem_of_further.
Qed.

Lemma collect_posts_failure (forums : list str) (all_posts : list Post)
    (fetched_forums : list str) (i : nat) (forum : str) (e : exn) :
  forums !! i = Some forum →
  fetch forum = Propagates e →
  (∀ j f, (j < i)%nat → forums !! j = Some f → ∃ posts, fetch f = Fetched posts) →
  collect forums all_posts fetched_forums
  = (Propagates e, fetched_forums ++ take (S i) forums).
Proof.
  subst fetch collect. revert all_posts fetched_forums i.
  induction forums as [|f rest IH]; intros all_posts fetched_forums i Hi He Hb.
  - by rewrite lookup_nil in Hi.
  - cbn [collect_posts]. destruct i as [|i]; cbn in Hi.
    + assert (f = forum) as -> by congruence. by rewrite He.
    + destruct (Hb 0%nat f ltac:(lia) eq_refl) as [posts ->].
      rewrite (IH _ _ i Hi He).
      * by rewrite <- app_assoc.
      * intros j f' Hj Hf'. apply (Hb (S j) f'); [lia | done].
Qed.

(** The key is the gate of the run: without it [main] returns at once;
    no forum is fetched, no prompt is sent and no mail operation is
    attempted, whatever the other settings are. *)
Theorem main_halts_without_key :
  truthy (getenv env "OPENROUTER_KEY") = false →
  run = {| run_forums := []; run_prompts := []; run_mail := [];
           run_end := Completed |}.
Proof.
  intros Hkey. subst run. unfold main.
  by rewrite validate_result, Hkey.
Qed.

(** A fetch that lets an exception out ends the whole run: the forums
    after it are not fetched, no post is classified and nothing is
    mailed, even when earlier forums returned posts. *)
Theorem main_aborts_on_fetch_failure (i : nat) (forum : str) (e : exn) :
  truthy (getenv env "OPENROUTER_KEY") = true →
  subreddits !! i = Some forum →
  fetch forum = Propagates e →
  (∀ j f, (j < i)%nat → subreddits !! j = Some f →
          ∃ posts, fetch f = Fetched posts) →
  run = {| run_forums := take (S i) subreddits; run_prompts := [];
           run_mail := []; run_end := Escapes e |}.
Proof.
  intros Hkey Hi He Hbefore. subst run. unfold main.
  rewrite validate_result, Hkey. cbn [negb].
  pose proof (collect_posts_failure subreddits [] [] i forum e Hi He Hbefore)
    as Hc.
  subst collect. cbn [app] in Hc. by rewrite Hc.
Qed.

End PipelineProps.

(** An instance of [main_halts_without_key]: mail settings but no key. *)
Lemma main_halts_without_key_witness :
  main mail_env praw_fails_after_one get_listing accepts_all sample_now
    (λ _, 1700000030%float) sample_now smtp_accepts
  = {| run_forums := []; run_prompts := []; run_mail := [];
       run_end := Completed |}.
Proof.
  exact (main_halts_without_key mail_env praw_fails_after_one get_listing
           accepts_all sample_now (λ _, 1700000030%float) sample_now
           smtp_accepts eq_refl).
Defined.

(** An instance of [main_aborts_on_fetch_failure]: the first forum answers
    with the JSON body [{}]. *)
Lemma main_aborts_on_fetch_failure_witness :
  main sample_env praw_fails_after_one get_empty_object accepts_all
    sample_now (λ _, 1700000030%float) sample_now smtp_accepts
  = {| run_forums := [py "RealEstateTechnology"]; run_prompts := [];
       run_mail := []; run_end := Escapes KeyError |}.
Proof.
  refine (main_aborts_on_fetch_failure sample_env praw_fails_after_one
            get_empty_object accepts_all sample_now (λ _, 1700000030%float)
            sample_now smtp_accepts 0%nat (py "RealEstateTechnology")
            KeyError _ _ _ _).
  - reflexivity.
  - reflexivity.
  - reflexivity.
  - intros j f Hj. lia.
Defined.


(** ** The pipeline with its console *)

Section ConsolePipelineProps.
Variable env : gmap string str.
Variable praw_new : str → str → str → str → Z → praw_listing.
Variable requests_get : str → str → Z → option str → http_outcome.
Variable construct : str → option exn.
Variable console : list print_call → print_call → option exn.
Variable create : list str → str → result completion.
Variable now : datetime.
Variable time_ : nat → float.
Variable now_subject : datetime.
Variable smtp : list smtp_op → smtp_op → option exn.

Let run : main_run :=
  IO.main env praw_new requests_get construct console create now time_
    now_subject smtp.

(** The prompts of a run are those the classifier has sent. *)
Lemma io_main_prompts (all_posts : list Post) (forums : list str) :
  truthy (getenv env "OPENROUTER_KEY") = true →
  collect_posts env praw_new requests_get subreddits [] []
  = (Fetched all_posts, forums) →
  all_posts ≠ [] →
  let classified :=
    IO.filter_posts_with_gemini construct console create main_filter_criteria
      env [] all_posts in
  run_forums run = forums
  ∧ run_prompts run = cs_sent (fst classified)
  ∧ (∀ e, snd classified = Raises e →
          run_mail run = [] ∧ run_end run = Escapes e).
Proof.
  intros Hkey Hcollect Hposts classified. subst run. unfold IO.main.
  rewrite validate_result, Hkey. cbn [negb]. rewrite Hcollect.
  destruct all_posts as [|post rest]; [done|].
  fold classified.
  destruct classified as [st [[|pr prs]|e]]; cbn [fst snd].
  - split_and!; [done..|]. by intros e [=].
  - destruct (build_html_report _ _ _) as [doc|e].
    + destruct (truthy (getenv env "RECIPIENT_EMAIL")).
      * destruct (IO.send_email _ _ _ _ _ _ _) as [[[[|]|e] ops] printed];
          (split_and!; [done..|]); by intros e' [=].
      * split_and!; [done..|]. by intros e [=].
    + split_and!; [done..|]. by intros e' [=].
  - split_and!; [done..|]. by intros e' [= <-].
Qed.

(** When every forum is fetched, the posts are classified as one
    sequence, forum after forum in the order of the forum list: the
    prompts sent are prompts of these posts, in their order and none
    twice, each built from the fixed criterion.  Every post gets its
    prompt when the client is built and the prints of the key and of the
    handler go through; when the client's constructor raises, no prompt
    is sent, nothing is mailed and the exception ends the run.  With no
    post at all the run ends without a prompt or a mail operation. *)
Theorem main_classifies_forums_in_order (posts_of : str → list Post) :
  truthy (getenv env "OPENROUTER_KEY") = true →
  (∀ forum, forum ∈ subreddits →
            fetch_new_posts env praw_new requests_get forum 10
            = Fetched (posts_of forum)) →
  let key := default [] (getenv env "OPENROUTER_KEY") in
  let all_posts := concat (map posts_of subreddits) in
  let prompts := map (build_prompt main_filter_criteria) all_posts in
  run_forums run = subreddits
  ∧ sublist (run_prompts run) prompts
  ∧ (construct key = None →
     (∀ printed,
        console printed (PrintKey (take 5 key) (drop (length key - 4) key))
        = None) →
     (∀ printed p e, p ∈ all_posts →
                     console printed (PrintError (title p) e) = None) →
     run_prompts run = prompts)
  ∧ (∀ e, construct key = Some e → all_posts ≠ [] →
          run_prompts run = [] ∧ run_mail run = [] ∧ run_end run = Escapes e)
  ∧ (all_posts = [] →
     run_prompts run = [] ∧ run_mail run = [] ∧ run_end run = Completed).
Proof.
  intros Hkey Hall key all_posts prompts.
  pose proof (collect_posts_all env praw_new requests_get posts_of subreddits
                [] [] Hall) as Hc.
  cbn [app] in Hc. fold all_posts in Hc.
  destruct (decide (all_posts = [])) as [Hnil|Hposts].
  { assert (run = {| run_forums := subreddits; run_prompts := [];
                     run_mail := []; run_end := Completed |}) as ->.
    { subst run. unfold IO.main.
      rewrite validate_result, Hkey. cbn [negb]. by rewrite Hc, Hnil. }
    cbn [run_forums run_prompts run_mail run_end].
    split_and!; [done | apply sublist_nil_l | | done | done].
    intros _ _ _. subst prompts. by rewrite Hnil. }
  destruct (io_main_prompts all_posts subreddits Hkey Hc Hposts)
    as (Hforums & Hprompts & Hraised).
  destruct (io_filter_state construct console create main_filter_criteria env
              [] all_posts) as (_ & Hsent & _).
  split_and!.
  - exact Hforums.
  - by rewrite Hprompts.
  - intros Hclient Hkeyprint Hhandler. rewrite Hprompts.
    destruct (io_filter_returns construct console create main_filter_criteria
                env [] all_posts Hclient Hhandler) as [out Hret].
    pose proof (io_filter_agrees construct console create main_filter_criteria
                  env [] all_posts out Hkeyprint Hret) as Hagree.
    rewrite filter_run_with_key in Hagree by done.
    subst prompts. congruence.
  - intros e Hclient _.
    assert (IO.filter_posts_with_gemini construct console create
              main_filter_criteria env [] all_posts
            = ({| cs_filtered := []; cs_sent := []; cs_printed := [] |},
               Raises e)) as Hrun.
    { unfold IO.filter_posts_with_gemini. fold key. by rewrite Hkey, Hclient. }
    rewrite Hprompts. rewrite Hrun in Hraised |- *.
    destruct (Hraised e eq_refl). by split_and!.
  - done.
Qed.
End ConsolePipelineProps.

(** An instance of [main_classifies_forums_in_order], on a console that
    writes ASCII only: every forum lists the same post.  With a client
    that is built, each of the four posts gets its prompt; with a
    constructor that raises, no prompt is sent and the exception ends the
    run. *)
Lemma main_classifies_forums_in_order_witness :
  let run construct :=
    IO.main sample_env praw_fails_after_one get_listing construct
      console_ascii accepts_all sample_now (λ _, 1700000030%float)
      sample_now smtp_accepts in
  run_forums (run construct_ok) = subreddits
  ∧ run_prompts (run construct_ok)
    = map (build_prompt main_filter_criteria)
          [sample_post; sample_post; sample_post; sample_post]
  ∧ run_prompts (run construct_fails) = []
  ∧ run_end (run construct_fails) = Escapes OtherError.
Proof.
  intros run.
  assert (∀ forum, forum ∈ subreddits →
                   fetch_new_posts sample_env praw_fails_after_one get_listing
                     forum 10
                   = Fetched [sample_post]) as Hall.
  { intros forum _. reflexivity. }
  destruct (main_classifies_forums_in_order sample_env praw_fails_after_one
              get_listing construct_ok console_ascii accepts_all sample_now
              (λ _, 1700000030%float) sample_now smtp_accepts
              (λ _, [sample_post]) eq_refl Hall)
    as (Hf & _ & Hp & _).
  destruct (main_classifies_forums_in_order sample_env praw_fails_after_one
              get_listing construct_fails console_ascii accepts_all sample_now
              (λ _, 1700000030%float) sample_now smtp_accepts
              (λ _, [sample_post]) eq_refl Hall)
    as (_ & _ & _ & Hraise & _).
  destruct (Hraise OtherError eq_refl) as (Hnone & _ & Hend); [done|].
  split_and!; [exact Hf | | exact Hnone | exact Hend].
  apply Hp; [reflexivity | reflexivity |].
  intros printed p e Hp'.
  change (p ∈ [sample_post; sample_post; sample_post; sample_post]) in Hp'.
  assert (Forall (λ q, q = sample_post)
            [sample_post; sample_post; sample_post; sample_post]) as Hsame
    by (repeat constructor).
  rewrite (proj1 (Forall_forall _ _) Hsame p Hp').
  reflexivity.
Defined.

(** With a client that is built, prints that go through and a report
    that can be encoded, the run with its console is the run. *)
Lemma io_main_agrees (env : gmap string str)
    (praw_new : str → str → str → str → Z → praw_listing)
    (requests_get : str → str → Z → option str → http_outcome)
    (construct : str → option exn)
    (console : list print_call → print_call → option exn)
    (create : list str → str → result completion)
    (now : datetime) (time_ : nat → float) (now_subject : datetime)
    (smtp : list smtp_op → smtp_op → option exn) :
  construct (default [] (getenv env "OPENROUTER_KEY")) = None →
  (∀ printed call, console printed call = None) →
  (∀ all_posts forums doc,
     collect_posts env praw_new requests_get subreddits [] []
     = (Fetched all_posts, forums) →
     build_html_report now time_
       (filter_posts_with_gemini create main_filter_criteria env all_posts)
     = Returns doc →
     has_surrogate doc = false) →
  IO.main env praw_new requests_get construct console create now time_
    now_subject smtp
  = main env praw_new requests_get create now time_ now_subject smtp.
Proof.
  intros Hclient Hquiet Hbody. unfold IO.main, main.
  destruct (negb _); [done|].
  destruct (collect_posts _ _ _ _ _ _) as [[all_posts|e|] forums] eqn:Hcollect;
    [|done..].
  destruct all_posts as [|post rest]; [done|].
  specialize (Hbody (post :: rest) forums).
  unfold filter_posts_with_gemini in Hbody.
  destruct (io_filter_returns construct console create main_filter_criteria
              env [] (post :: rest) Hclient
              (λ printed p e _, Hquiet printed (PrintError (title p) e)))
    as [out Hret].
  pose proof (io_filter_agrees construct console create main_filter_criteria
                env [] (post :: rest) out
                (λ printed, Hquiet printed _) Hret) as Hagree.
  destruct (IO.filter_posts_with_gemini _ _ _ _ _ _ _) as [st returned].
  cbn [fst snd] in Hret, Hagree. subst returned.
  rewrite <- Hagree in Hbody |- *. cbn [fst] in Hbody.
  destruct out as [|pr prs]; [done|].
  destruct (build_html_report _ _ _) as [doc|e] eqn:Hdoc; [|done].
  destruct (truthy (getenv env "RECIPIENT_EMAIL")); [|done].
  pose proof (io_send_email_agrees env smtp console (cs_printed st)
                (getenv env "RECIPIENT_EMAIL")
                (py "Reddit Idea Filter Report - " ++ strftime_date now_subject)
                doc (Hbody doc eq_refl eq_refl) Hquiet) as Hmail.
  destruct (IO.send_email _ _ _ _ _ _ _) as [[returned ops] printed].
  cbn [fst] in Hmail. rewrite <- Hmail.
  destruct returned as [[|]|e]; by rewrite ?Hquiet.
Qed.
